(** * The House Always Wins: the slot-machine game, its ledger and its cheat policy

    A shallow embedding of [game/models.py] and [game/views.py].

    - Python integers are unbounded: credits are [Z].  The columns they are
      stored in are not: an [IntegerField] is a signed 64-bit INTEGER of
      SQLite (the backend of a Django project unless its settings, which are
      not among the sources, say otherwise), and writing a value outside
      that range raises [OverflowError] and stores nothing.
    - Python floats are IEEE binary64: the draws of [random.random()] and the
      literals [0.3] and [0.6] are Rocq's primitive floats, compared with
      [PrimFloat.ltb].
    - The database is a table of sessions keyed by [session_id] (the column is
      [unique=True] and not editable), a table of rolls in insertion order, and
      a journal of the row writes ([save()], [objects.create()]) in the order
      they are issued.
    - The module-global generator of [random] is a pair of infinite tapes with
      a cursor each: one read by [random.random()], one by [random.choice].
    - Exceptions are values: a computation returns [Ok v] or [Raise e]
      together with the state it reached (Django runs these views in
      autocommit mode, a raise does not undo earlier writes). *)

From Stdlib Require Import ZArith Lia Floats.PrimFloat.
From Stdlib Require Floats.FloatAxioms.
From stdpp Require Import base option list strings pretty gmap.

#[local] Set Warnings "-inexact-float".
#[local] Open Scope Z_scope.

(** ** Exceptions and the state-and-exception monad *)

Inductive exception : Type :=
  | Http404 (msg : string)
  | IndexError (msg : string)
  | KeyError (key : string)
  | IntegrityError (msg : string)
  | OverflowError (msg : string).

(** [str(e)]; a [KeyError] prints the [repr] of its key. *)
Definition str (e : exception) : string :=
  match e with
  | Http404 msg => msg
  | IndexError msg => msg
  | KeyError key => "'" +:+ key +:+ "'"
  | IntegrityError msg => msg
  | OverflowError msg => msg
  end.

Inductive result (A : Type) : Type :=
  | Ok (a : A)
  | Raise (e : exception).
Arguments Ok {A} a.
Arguments Raise {A} e.

Definition M (S A : Type) : Type := S -> result A * S.

Definition ret {S A} (a : A) : M S A := fun s => (Ok a, s).

Definition raise {S A} (e : exception) : M S A := fun s => (Raise e, s).

Definition bind {S A B} (m : M S A) (k : A -> M S B) : M S B :=
  fun s =>
    match m s with
    | (Ok a, s') => k a s'
    | (Raise e, s') => (Raise e, s')
    end.

(** [try: m except Exception as e: h e] *)
Definition try_except {S A} (m : M S A) (h : exception -> M S A) : M S A :=
  fun s =>
    match m s with
    | (Ok a, s') => (Ok a, s')
    | (Raise e, s') => h e s'
    end.

Notation "x <- m ;; k" := (bind m (fun x => k))
  (at level 100, m at next level, right associativity, only parsing).

(** [[m for _ in range(n)]] *)
Fixpoint repeatM {S A} (n : nat) (m : M S A) : M S (list A) :=
  match n with
  | O => ret []
  | Datatypes.S n' => x <- m ;; xs <- repeatM n' m ;; ret (x :: xs)
  end.

(** [[f(x) for x in l]] *)
Fixpoint mapM {S A B} (f : A -> M S B) (l : list A) : M S (list B) :=
  match l with
  | [] => ret []
  | x :: l' => y <- f x ;; ys <- mapM f l' ;; ret (y :: ys)
  end.

(** [l[i]] and [l[i] = x] for a non-negative literal index [i]. *)
Definition list_getitem {S A} (l : list A) (i : nat) : M S A :=
  match l !! i with
  | Some x => ret x
  | None => raise (IndexError "list index out of range")
  end.

Definition list_setitem {S A} (l : list A) (i : nat) (x : A) : M S (list A) :=
  if decide (i < length l)%nat then ret (<[i:=x]> l)
  else raise (IndexError "list assignment index out of range").

(** ** The random source *)

Record Random : Type := {
  uniform : nat -> float;   (* the values random.random() will return *)
  uniform_used : nat;       (* how many of them were consumed *)
  below : nat -> nat;       (* the raw values behind _randbelow *)
  below_used : nat
}.

Definition consume_uniform (g : Random) : Random :=
  {| uniform := uniform g; uniform_used := Datatypes.S (uniform_used g);
     below := below g; below_used := below_used g |}.

Definition consume_below (g : Random) : Random :=
  {| uniform := uniform g; uniform_used := uniform_used g;
     below := below g; below_used := Datatypes.S (below_used g) |}.

Definition next_uniform (g : Random) : float := uniform g (uniform_used g).

(** [random.random()] *)
Definition random_random : M Random float :=
  fun g => (Ok (next_uniform g), consume_uniform g).

(** [random.choice(seq)]: [seq[_randbelow(len(seq))]], and an [IndexError]
    on an empty sequence. *)
Definition random_choice {A} (seq : list A) : M Random A :=
  fun g =>
    match seq with
    | [] => (Raise (IndexError "Cannot choose from an empty sequence"), g)
    | _ :: _ =>
        match seq !! (below g (below_used g) `mod` length seq)%nat with
        | Some x => (Ok x, consume_below g)
        | None => (Raise (IndexError "list index out of range"), consume_below g)
        end
    end.

(** ** game/models.py *)

Module models.

Record GameSession : Type := {
  session_id : N;
  credits : Z;
  account_credits : Z;
  created_at : Z;
  is_active : bool
}.

Record GameRoll : Type := {
  session : N;
  symbols : list string;
  credits_before : Z;
  credits_after : Z;
  credits_won : Z;
  was_winning_roll : bool;
  was_rerolled : bool;
  roll_created_at : Z
}.

(** The range of an integer column, and the rows that fit their columns. *)
Definition INTEGER_MIN : Z := - 2 ^ 63.
Definition INTEGER_MAX : Z := 2 ^ 63 - 1.

Definition fits_column (n : Z) : bool := (INTEGER_MIN <=? n) && (n <=? INTEGER_MAX).

Definition row_fits (self : GameSession) : bool :=
  fits_column (credits self) && fits_column (account_credits self).

Definition roll_fits (r : GameRoll) : bool :=
  fits_column (credits_before r) && fits_column (credits_after r)
  && fits_column (credits_won r).

Definition too_large : exception :=
  OverflowError "Python int too large to convert to SQLite INTEGER".

Inductive db_write : Type :=
  | SaveSession (s : GameSession)
  | InsertRoll (r : GameRoll).

Record Database : Type := {
  sessions : gmap N GameSession;
  rolls : list GameRoll;
  journal : list db_write
}.

Definition empty_database : Database :=
  {| sessions := ∅; rolls := []; journal := [] |}.

(** [GameSession.objects.create()] with the field defaults (10 and 0 fit
    their columns); the unique constraint on [session_id] rejects a second
    row with the same value. *)
Definition GameSession_create (uuid : N) (now : Z) : M Database GameSession :=
  fun db =>
    let s := {| session_id := uuid; credits := 10; account_credits := 0;
                created_at := now; is_active := true |} in
    match sessions db !! uuid with
    | Some _ =>
        (Raise (IntegrityError "UNIQUE constraint failed: game_gamesession.session_id"), db)
    | None =>
        (Ok s, {| sessions := <[uuid := s]> (sessions db); rolls := rolls db;
                  journal := journal db ++ [SaveSession s] |})
    end.

(** [GameRoll.objects.create(...)]: the row is inserted, unless one of its
    integers does not fit its column. *)
Definition GameRoll_create (r : GameRoll) : M Database GameRoll :=
  fun db =>
    if roll_fits r then
      (Ok r, {| sessions := sessions db; rolls := rolls db ++ [r];
                journal := journal db ++ [InsertRoll r] |})
    else (Raise too_large, db).

(** [self.save()]: the row is written, unless one of its integers does not
    fit its column. *)
Definition save (self : GameSession) : M Database unit :=
  fun db =>
    if row_fits self then
      (Ok tt, {| sessions := <[session_id self := self]> (sessions db);
                 rolls := rolls db;
                 journal := journal db ++ [SaveSession self] |})
    else (Raise too_large, db).

Definition set_credits (c : Z) (self : GameSession) : GameSession :=
  {| session_id := session_id self; credits := c;
     account_credits := account_credits self;
     created_at := created_at self; is_active := is_active self |}.

Definition set_account_credits (a : Z) (self : GameSession) : GameSession :=
  {| session_id := session_id self; credits := credits self;
     account_credits := a;
     created_at := created_at self; is_active := is_active self |}.

Definition set_is_active (b : bool) (self : GameSession) : GameSession :=
  {| session_id := session_id self; credits := credits self;
     account_credits := account_credits self;
     created_at := created_at self; is_active := b |}.

(** The methods mutate [self] in place: each returns its Python result
    together with the object as it is afterwards. *)

Definition can_play (self : GameSession) : bool := 1 <=? credits self.

Definition deduct_credit (self : GameSession) : M Database (bool * GameSession) :=
  if can_play self then
    let self := set_credits (credits self - 1) self in
    _ <- save self ;;
    ret (true, self)
  else ret (false, self).

Definition add_credits (self : GameSession) (amount : Z) : M Database GameSession :=
  let self := set_credits (credits self + amount) self in
  _ <- save self ;;
  ret self.

Definition cash_out (self : GameSession) : M Database (Z * GameSession) :=
  let self := set_account_credits (account_credits self + credits self) self in
  let self := set_credits 0 self in
  let self := set_is_active false self in
  _ <- save self ;;
  ret (account_credits self, self).

End models.

(** ** game/views.py *)

Module views.
Import models.

(** The process state a request runs in: the database and the generator. *)
Record World : Type := { db : Database; rng : Random }.

Definition with_db {A} (m : M Database A) : M World A :=
  fun w => let (r, d) := m (db w) in (r, {| db := d; rng := rng w |}).

Definition with_rng {A} (m : M Random A) : M World A :=
  fun w => let (r, g) := m (rng w) in (r, {| db := db w; rng := g |}).

Record SymbolInfo : Type := { letter : string; reward : Z }.

(** A dict literal keeps its insertion order, which [list(SYMBOLS.keys())]
    reads: an association list. *)
Definition SYMBOLS : list (string * SymbolInfo) :=
  [ ("cherry", {| letter := "C"; reward := 10 |});
    ("lemon", {| letter := "L"; reward := 20 |});
    ("orange", {| letter := "O"; reward := 30 |});
    ("watermelon", {| letter := "W"; reward := 40 |}) ].

Definition SYMBOL_NAMES : list string := map fst SYMBOLS.

Fixpoint dict_get {V} (d : list (string * V)) (key : string) : option V :=
  match d with
  | [] => None
  | (k, v) :: d' => if decide (k = key) then Some v else dict_get d' key
  end.

(** [d[key]] *)
Definition dict_getitem {S V} (d : list (string * V)) (key : string) : M S V :=
  match dict_get d key with
  | Some v => ret v
  | None => raise (KeyError key)
  end.

Inductive JsonResponse : Type :=
  | CreateSessionResponse (session_id : N) (credits account_credits : Z)
  | RollResponse (symbols symbols_display : list string) (is_winning : bool)
      (credits_won total_credits : Z) (was_rerolled : bool)
  | CashOutResponse (success : bool) (total_account_credits : Z) (message : string)
  | SessionStatusResponse (session_id : N) (credits account_credits : Z)
      (is_active can_play : bool)
  | ErrorResponse (status : Z) (error : string).

(** [get_object_or_404(GameSession, session_id=..., [is_active=...])] *)
Definition get_object_or_404 (sid : N) (is_active_kw : option bool)
  : M Database GameSession :=
  fun d =>
    let not_found := Http404 "No GameSession matches the given query." in
    match sessions d !! sid with
    | Some s =>
        match is_active_kw with
        | Some b => if decide (is_active s = b) then (Ok s, d) else (Raise not_found, d)
        | None => (Ok s, d)
        end
    | None => (Raise not_found, d)
    end.

Definition generate_roll : M Random (list string) :=
  repeatM 3 (random_choice SYMBOL_NAMES).

Definition generate_losing_roll : M Random (list string) :=
  symbols <- repeatM 3 (random_choice SYMBOL_NAMES) ;;
  if decide (size (list_to_set symbols : gset string) = 1%nat) then
    first <- list_getitem symbols 0 ;;
    let available_symbols := filter (fun s => s ≠ first) SYMBOL_NAMES in
    third <- random_choice available_symbols ;;
    list_setitem symbols 2 third
  else ret symbols.

Definition check_winning_combination (symbols : list string) : bool :=
  bool_decide (size (list_to_set symbols : gset string) = 1%nat).

Definition should_server_cheat (current_credits potential_win_credits : Z)
  : M Random bool :=
  let future_credits := current_credits + potential_win_credits in
  if future_credits <? 40 then ret false
  else if (40 <=? future_credits) && (future_credits <=? 60) then
    r <- random_random ;; ret (PrimFloat.ltb r 0.3%float)
  else
    r <- random_random ;; ret (PrimFloat.ltb r 0.6%float).

Definition create_session (uuid : N) (now : Z) : M World JsonResponse :=
  session <- with_db (GameSession_create uuid now) ;;
  ret (CreateSessionResponse (session_id session) (credits session)
         (account_credits session)).

(** What the branch [if is_winning:] of [roll_slots] leaves in the locals
    [symbols], [is_winning], [credits_won], [was_rerolled]. *)
Record roll_locals : Type := {
  l_symbols : list string;
  l_is_winning : bool;
  l_credits_won : Z;
  l_was_rerolled : bool
}.

Definition roll_slots (sid : N) (now : Z) : M World JsonResponse :=
  try_except
    (session <- with_db (get_object_or_404 sid (Some true)) ;;
     if negb (can_play session) then ret (ErrorResponse 400 "Not enough credits")
     else
       let credits_before := credits session in
       deducted <- with_db (deduct_credit session) ;;
       let session := snd deducted in
       symbols <- with_rng generate_roll ;;
       let is_winning := check_winning_combination symbols in
       let credits_won := 0 in
       let was_rerolled := false in
       locals <-
         (if is_winning then
            first <- list_getitem symbols 0 ;;
            info <- dict_getitem SYMBOLS first ;;
            let credits_won := reward info in
            should_reroll <-
              with_rng (should_server_cheat (credits session) credits_won) ;;
            if should_reroll then
              symbols <- with_rng generate_losing_roll ;;
              ret {| l_symbols := symbols; l_is_winning := false;
                     l_credits_won := 0; l_was_rerolled := true |}
            else
              ret {| l_symbols := symbols; l_is_winning := is_winning;
                     l_credits_won := credits_won; l_was_rerolled := was_rerolled |}
          else
            ret {| l_symbols := symbols; l_is_winning := is_winning;
                   l_credits_won := credits_won; l_was_rerolled := was_rerolled |}) ;;
       let symbols := l_symbols locals in
       let is_winning := l_is_winning locals in
       let credits_won := l_credits_won locals in
       let was_rerolled := l_was_rerolled locals in
       session <-
         (if is_winning then with_db (add_credits session credits_won)
          else ret session) ;;
       roll <- with_db (GameRoll_create
                 {| session := session_id session;
                    symbols := symbols;
                    credits_before := credits_before;
                    credits_after := credits session;
                    credits_won := credits_won;
                    was_winning_roll := is_winning;
                    was_rerolled := was_rerolled;
                    roll_created_at := now |}) ;;
       symbols_display <-
         mapM (fun symbol => info <- dict_getitem SYMBOLS symbol ;; ret (letter info))
              symbols ;;
       ret (RollResponse symbols symbols_display is_winning credits_won
              (credits session) was_rerolled))
    (fun e => ret (ErrorResponse 500 (str e))).

Definition cash_out (sid : N) : M World JsonResponse :=
  try_except
    (session <- with_db (get_object_or_404 sid (Some true)) ;;
     cashed <- with_db (models.cash_out session) ;;
     let total_account_credits := fst cashed in
     let session := snd cashed in
     ret (CashOutResponse true total_account_credits
            ("Successfully cashed out "
             +:+ pretty (credits session + total_account_credits)
             +:+ " credits!")))
    (fun e => ret (ErrorResponse 500 (str e))).

Definition get_session_status (sid : N) : M World JsonResponse :=
  try_except
    (session <- with_db (get_object_or_404 sid None) ;;
     ret (SessionStatusResponse (session_id session) (credits session)
            (account_credits session) (is_active session) (can_play session)))
    (fun e => ret (ErrorResponse 500 (str e))).

End views.

(** ** game/urls.py: the four API routes *)

Module urls.
Import models views.

(** A request carries what the handler reads from it and from its
    environment: the [session_id] of the JSON body or of the path (a
    well-formed UUID), the clock ([timezone.now]) and, for a new session, the
    value [uuid.uuid4] returns. *)
Inductive request : Type :=
  | CreateSession (uuid : N) (now : Z)   (* POST api/create-session/ *)
  | PlayRoll (sid : N) (now : Z)         (* POST api/roll/ *)
  | CashOut (sid : N)                    (* POST api/cash-out/ *)
  | GetStatus (sid : N).                 (* GET api/session/<uuid>/ *)

Definition dispatch (r : request) : M World JsonResponse :=
  match r with
  | CreateSession uuid now => create_session uuid now
  | PlayRoll sid now => roll_slots sid now
  | CashOut sid => views.cash_out sid
  | GetStatus sid => get_session_status sid
  end.

Definition step (r : request) (w : World) : World := snd (dispatch r w).

(** The states of a request sequence, oldest request first. *)
Definition run (rs : list request) (w : World) : World :=
  foldl (fun w r => step r w) w rs.

Definition initial (g : Random) : World :=
  {| db := empty_database; rng := g |}.

Inductive reachable : World -> Prop :=
  | reachable_initial g : reachable (initial g)
  | reachable_step w r : reachable w -> reachable (step r w).

End urls.

(** ** Vocabulary of the specification, in terms of the code *)

Module spec.
Import models views urls.

(** The two user-facing failures of [roll_slots] and [cash_out].  The lookup
    [get_object_or_404] raises [Http404] for an unknown identifier and for a
    closed session alike; the handler's [except Exception] reports it with
    status 500 and the exception's text. *)
Definition SessionNotFoundOrInactive : JsonResponse :=
  ErrorResponse 500 "No GameSession matches the given query.".

Definition InsufficientCredits : JsonResponse :=
  ErrorResponse 400 "Not enough credits".

(** What the handlers answer when a write raises [OverflowError]. *)
Definition OverflowFailure : JsonResponse := ErrorResponse 500 (str too_large).

(** The row a play leaves once the credit is deducted. *)
Definition deducted (s : GameSession) : GameSession :=
  set_credits (credits s - 1) s.

(** Balances of every stored session are non-negative. *)
Definition nonnegative (m : gmap N GameSession) : Prop :=
  forall sid s, m !! sid = Some s -> 0 <= credits s /\ 0 <= account_credits s.

(** A session is stored under its own identifier. *)
Definition keyed (m : gmap N GameSession) : Prop :=
  forall sid s, m !! sid = Some s -> session_id s = sid.

(** A closed session holds no spendable credits. *)
Definition closed_is_empty (m : gmap N GameSession) : Prop :=
  forall sid s, m !! sid = Some s -> is_active s = false -> credits s = 0.

(** The session a successful [cash_out] leaves behind. *)
Definition cashed_out (s : GameSession) : GameSession :=
  {| session_id := session_id s; credits := 0;
     account_credits := account_credits s + credits s;
     created_at := created_at s; is_active := false |}.

(** What one request can do to the table of sessions. *)
Inductive session_update (m : gmap N GameSession) : gmap N GameSession -> Prop :=
  | update_none : session_update m m
  | update_create uuid now :
      m !! uuid = None ->
      session_update m
        (<[uuid := {| session_id := uuid; credits := 10; account_credits := 0;
                      created_at := now; is_active := true |}]> m)
  | update_play sid s c :
      m !! sid = Some s -> is_active s = true -> 1 <= credits s ->
      credits s - 1 <= c ->
      session_update m (<[session_id s := set_credits c s]> m)
  | update_cash_out sid s :
      m !! sid = Some s -> is_active s = true ->
      session_update m (<[session_id s := cashed_out s]> m).

(** Sample inputs: a generator whose symbol tape cycles through the catalog
    (three consecutive symbols are never equal: no roll wins) and whose uniform draws are all
    [0.2]; one whose symbol tape is constant (every roll is three cherries). *)
Definition cycling_rng : Random :=
  {| uniform := fun _ => 0.2%float; uniform_used := 0;
     below := fun n => n; below_used := 0 |}.

Definition lucky_rng (r : float) : Random :=
  {| uniform := fun _ => r; uniform_used := 0;
     below := fun _ => 0%nat; below_used := 0 |}.

(** A generator that lets three rolls win on cherries, seven rolls lose, and
    every later roll win on cherries again; its uniform draws are all [0.2]. *)
Definition threshold_rng : Random :=
  {| uniform := fun _ => 0.2%float; uniform_used := 0;
     below := fun n => if (n <? 9)%nat then 0%nat
                       else if (30 <=? n)%nat then 0%nat else n;
     below_used := 0 |}.

(** A fresh session 7. *)
Definition fresh_world : World :=
  run [CreateSession 7 100] (initial (lucky_rng 0.2%float)).

(** Session 7 after ten losing rolls: no credits left, still active. *)
Definition broke_world : World :=
  run (CreateSession 7 100 :: replicate 10 (PlayRoll 7 101)) (initial cycling_rng).

(** Session 7 after one winning roll and a cash-out. *)
Definition closed_world : World :=
  step (CashOut 7) (step (PlayRoll 7 101) (step (CreateSession 7 100)
    (initial (lucky_rng 0.2%float)))).

(** Session 7 with 30 credits: one below the first threshold once the play
    is paid for and ten credits are won. *)
Definition threshold_world : World :=
  run (CreateSession 7 100 :: replicate 10 (PlayRoll 7 101)) (initial threshold_rng).



Definition full_session : GameSession :=
  {| session_id := 7; credits := INTEGER_MAX; account_credits := 0;
     created_at := 100; is_active := true |}.

Definition full_world : World :=
  {| db := {| sessions := {[ 7%N := full_session ]}; rolls := []; journal := [] |};
     rng := lucky_rng 0.7%float |}.

End spec.

(** ** Vocabulary of the audit trail *)

Module audit.
Import models views urls spec.

(** The reward the catalog gives for the first symbol of a combination. *)
Definition reward_of (symbols : list string) : Z :=
  match symbols with
  | first :: _ =>
      match dict_get SYMBOLS first with
      | Some info => reward info
      | None => 0
      end
  | [] => 0
  end.

(** The roll record a play of session [s] writes. *)
Definition played_roll (s : GameSession) (roll : GameRoll) : Prop :=
  session roll = session_id s /\
  credits_before roll = credits s /\
  credits_after roll = credits s - 1 + credits_won roll /\
  length (symbols roll) = 3%nat /\
  Forall (fun x => x ∈ SYMBOL_NAMES) (symbols roll) /\
  was_winning_roll roll = check_winning_combination (symbols roll) /\
  credits_won roll = (if was_winning_roll roll then reward_of (symbols roll) else 0) /\
  (was_rerolled roll = true -> was_winning_roll roll = false).

(** [g'] is [g] after [u] uniform draws and [b] symbol draws. *)
Definition drawn (g g' : Random) (u b : nat) : Prop :=
  uniform g' = uniform g /\ below g' = below g /\
  uniform_used g' = (uniform_used g + u)%nat /\
  below_used g' = (below_used g + b)%nat.

(** What one request does to the database when every write goes through. *)
Inductive db_update (d : Database) : Database -> Prop :=
  | db_unchanged : db_update d d
  | db_created uuid now :
      sessions d !! uuid = None ->
      db_update d
        {| sessions :=
             <[uuid := {| session_id := uuid; credits := 10; account_credits := 0;
                          created_at := now; is_active := true |}]> (sessions d);
           rolls := rolls d;
           journal := journal d
             ++ [SaveSession {| session_id := uuid; credits := 10;
                                account_credits := 0; created_at := now;
                                is_active := true |}] |}
  | db_played sid s roll :
      sessions d !! sid = Some s -> is_active s = true -> 1 <= credits s ->
      played_roll s roll ->
      row_fits (set_credits (credits_after roll) s) = true ->
      db_update d
        {| sessions := <[session_id s := set_credits (credits_after roll) s]>
                         (sessions d);
           rolls := rolls d ++ [roll];
           journal := journal d
             ++ SaveSession (set_credits (credits s - 1) s)
             :: (if was_winning_roll roll
                 then [SaveSession (set_credits (credits_after roll) s)]
                 else [])
             ++ [InsertRoll roll] |}
  | db_cashed_out sid s :
      sessions d !! sid = Some s -> is_active s = true ->
      fits_column (account_credits s + credits s) = true ->
      db_update d
        {| sessions := <[session_id s := cashed_out s]> (sessions d);
           rolls := rolls d;
           journal := journal d ++ [SaveSession (cashed_out s)] |}.

(** What one request can do to the database when a write may overflow: all
    of the above, or a play that keeps its deduction and stores no roll. *)
Inductive db_change (d : Database) : Database -> Prop :=
  | change_clean d' : db_update d d' -> db_change d d'
  | change_aborted sid s :
      sessions d !! sid = Some s -> is_active s = true -> 1 <= credits s ->
      row_fits (deducted s) = true -> INTEGER_MAX < credits s + 39 ->
      db_change d
        {| sessions := <[session_id s := deducted s]> (sessions d);
           rolls := rolls d;
           journal := journal d ++ [SaveSession (deducted s)] |}.

(** What the rolls recorded for session [sid] add up to: each play costs one
    credit and pays [credits_won]. *)
Fixpoint net_winnings (sid : N) (rs : list GameRoll) : Z :=
  match rs with
  | [] => 0
  | r :: rest =>
      (if decide (session r = sid) then credits_won r - 1 else 0)
      + net_winnings sid rest
  end.

(** A roll record that agrees with itself. *)
Definition roll_sound (r : GameRoll) : Prop :=
  1 <= credits_before r /\
  credits_after r = credits_before r - 1 + credits_won r /\
  length (symbols r) = 3%nat /\
  Forall (fun x => x ∈ SYMBOL_NAMES) (symbols r) /\
  was_winning_roll r = check_winning_combination (symbols r) /\
  credits_won r = (if was_winning_roll r then reward_of (symbols r) else 0) /\
  (was_rerolled r = true -> was_winning_roll r = false).

(** What every reachable database keeps, overflow or not. *)
Record ledger_kept (d : Database) : Prop := {
  kept_keyed : keyed (sessions d);
  kept_foreign_key :
    forall r, r ∈ rolls d -> is_Some (sessions d !! session r);
  kept_active_account :
    forall sid s, sessions d !! sid = Some s -> is_active s = true ->
                  account_credits s = 0;
  kept_closed_credits :
    forall sid s, sessions d !! sid = Some s -> is_active s = false ->
                  credits s = 0;
  kept_rows :
    forall sid s, sessions d !! sid = Some s ->
                  0 <= credits s /\ 0 <= account_credits s /\ row_fits s = true;
  kept_rolls : Forall roll_sound (rolls d)
}.

(** What it keeps as long as no write has overflowed: the rolls account for
    every balance. *)
Record ledger_exact (d : Database) : Prop := {
  exact_conservation :
    forall sid s, sessions d !! sid = Some s ->
                  credits s + account_credits s = 10 + net_winnings sid (rolls d);
  exact_continuity :
    forall before r after, rolls d = before ++ r :: after ->
                           credits_before r = 10 + net_winnings (session r) before
}.

(** The states reached by at most [n] requests. *)
Inductive reachable_in : nat -> World -> Prop :=
  | reachable_in_initial g : reachable_in 0 (initial g)
  | reachable_in_step n w r : reachable_in n w -> reachable_in (S n) (step r w).

(** The session identifier a request names. *)
Definition target (r : request) : N :=
  match r with
  | CreateSession uuid _ => uuid
  | PlayRoll sid _ => sid
  | CashOut sid => sid
  | GetStatus sid => sid
  end.

(** The rows of session 7 in the sample worlds. *)
Definition fresh_session : GameSession :=
  {| session_id := 7; credits := 10; account_credits := 0;
     created_at := 100; is_active := true |}.

Definition closed_session : GameSession :=
  {| session_id := 7; credits := 0; account_credits := 19;
     created_at := 100; is_active := false |}.

(** Sessions 7 and 8, both fresh. *)
Definition two_sessions_world : World :=
  run [CreateSession 7 100; CreateSession 8 104] (initial (lucky_rng 0.2%float)).

Definition other_session : GameSession :=
  {| session_id := 8; credits := 10; account_credits := 0;
     created_at := 104; is_active := true |}.

(** Session 7 after two winning rolls, and the two roll records. *)
Definition two_wins_world : World :=
  run [CreateSession 7 100; PlayRoll 7 101; PlayRoll 7 102]
      (initial (lucky_rng 0.2%float)).

Definition two_wins_session : GameSession :=
  {| session_id := 7; credits := 28; account_credits := 0;
     created_at := 100; is_active := true |}.

Definition first_win : GameRoll :=
  {| session := 7; symbols := ["cherry"; "cherry"; "cherry"];
     credits_before := 10; credits_after := 19; credits_won := 10;
     was_winning_roll := true; was_rerolled := false; roll_created_at := 101 |}.

Definition second_win : GameRoll :=
  {| session := 7; symbols := ["cherry"; "cherry"; "cherry"];
     credits_before := 19; credits_after := 28; credits_won := 10;
     was_winning_roll := true; was_rerolled := false; roll_created_at := 102 |}.

End audit.

(** * Properties *)

Import models views urls spec.
Import audit.

(** ** Running the monad *)

Section MonadLaws.
Context {S A B : Type}.

Lemma bind_ok (m : M S A) (k : A -> M S B) s a s' :
  m s = (Ok a, s') -> bind m k s = k a s'.
Proof. intros H. unfold bind. now rewrite H. Qed.

Lemma bind_raise (m : M S A) (k : A -> M S B) s e s' :
  m s = (Raise e, s') -> bind m k s = (Raise e, s').
Proof. intros H. unfold bind. now rewrite H. Qed.

Lemma try_except_ok (m : M S A) h s a s' :
  m s = (Ok a, s') -> try_except m h s = (Ok a, s').
Proof. intros H. unfold try_except. now rewrite H. Qed.

Lemma try_except_raise (m : M S A) h s e s' :
  m s = (Raise e, s') -> try_except m h s = h e s'.
Proof. intros H. unfold try_except. now rewrite H. Qed.
End MonadLaws.

Lemma world_eta w : {| db := db w; rng := rng w |} = w.
Proof. now destruct w. Qed.

Lemma with_db_run {A} (m : M Database A) w r d :
  m (db w) = (r, d) -> with_db m w = (r, {| db := d; rng := rng w |}).
Proof. intros H. unfold with_db. now rewrite H. Qed.

(** ** The generator and the catalog *)

Lemma random_choice_ok {A} (seq : list A) g :
  seq <> [] -> exists x, x ∈ seq /\ random_choice seq g = (Ok x, consume_below g).
Proof.
  intros Hne. destruct seq as [|y seq']; [congruence|].
  unfold random_choice.
  destruct (lookup_lt_is_Some_2 (y :: seq')
              (below g (below_used g) `mod` length (y :: seq'))%nat) as [x Hx].
  { apply Nat.mod_upper_bound. simpl. lia. }
  rewrite Hx. exists x. split; [|reflexivity].
  eapply list_elem_of_lookup_2, Hx.
Qed.

Lemma SYMBOL_NAMES_nonempty : SYMBOL_NAMES <> [].
Proof. discriminate. Qed.

Lemma generate_roll_ok g :
  exists a b c,
    a ∈ SYMBOL_NAMES /\ b ∈ SYMBOL_NAMES /\ c ∈ SYMBOL_NAMES /\
    repeatM 3 (random_choice SYMBOL_NAMES) g
    = (Ok [a; b; c], consume_below (consume_below (consume_below g))).
Proof.
  destruct (random_choice_ok SYMBOL_NAMES g SYMBOL_NAMES_nonempty) as (a & Ha & Ea).
  destruct (random_choice_ok SYMBOL_NAMES (consume_below g) SYMBOL_NAMES_nonempty)
    as (b & Hb & Eb).
  destruct (random_choice_ok SYMBOL_NAMES (consume_below (consume_below g))
              SYMBOL_NAMES_nonempty) as (c & Hc & Ec).
  exists a, b, c. repeat split; try assumption.
  cbn [repeatM]. unfold bind, ret.
  rewrite Ea; cbn beta iota. rewrite Eb; cbn beta iota. rewrite Ec; cbn beta iota.
  reflexivity.
Qed.

Lemma size_three (a b c : string) :
  size (list_to_set [a; b; c] : gset string) = 1%nat <-> a = b /\ b = c.
Proof.
  split.
  - intros H. apply size_1_elem_of in H as [x Hx].
    set_unfold in Hx.
    pose proof (proj1 (Hx a)). pose proof (proj1 (Hx b)). pose proof (proj1 (Hx c)).
    split; transitivity x; auto; symmetry; auto.
  - intros [-> ->].
    replace (list_to_set [c; c; c] : gset string) with ({[c]} : gset string).
    + apply size_singleton.
    + apply set_eq. intros y. set_unfold. tauto.
Qed.

Lemma check_winning_three (a b c : string) :
  check_winning_combination [a; b; c] = true <-> a = b /\ b = c.
Proof.
  unfold check_winning_combination. rewrite bool_decide_eq_true. apply size_three.
Qed.

Lemma available_symbols_ok (first : string) :
  filter (fun s => s ≠ first) SYMBOL_NAMES <> [].
Proof.
  intros Hnil.
  destruct (decide ("cherry" = first)) as [<-|Hne].
  - assert (H : "lemon" ∈ filter (fun s => s ≠ "cherry") SYMBOL_NAMES)
      by (apply list_elem_of_filter; split; [discriminate | repeat constructor]).
    rewrite Hnil in H. inversion H.
  - assert (H : "cherry" ∈ filter (fun s => s ≠ first) SYMBOL_NAMES)
      by (apply list_elem_of_filter; split; [assumption | repeat constructor]).
    rewrite Hnil in H. inversion H.
Qed.

Lemma generate_losing_roll_ok g :
  exists a b c g',
    generate_losing_roll g = (Ok [a; b; c], g') /\
    a ∈ SYMBOL_NAMES /\ b ∈ SYMBOL_NAMES /\ c ∈ SYMBOL_NAMES /\
    ~ (a = b /\ b = c) /\
    uniform g' = uniform g /\ uniform_used g' = uniform_used g.
Proof.
  destruct (generate_roll_ok g) as (a & b & c & Ha & Hb & Hc & E).
  unfold generate_losing_roll.
  rewrite (bind_ok _ _ _ _ _ E); cbn beta.
  destruct (decide (size (list_to_set [a; b; c] : gset string) = 1%nat)) as [Hw|Hw].
  - apply size_three in Hw as [<- <-].
    destruct (random_choice_ok _ (consume_below (consume_below (consume_below g)))
                (available_symbols_ok a)) as (x & Hx & Ex).
    apply list_elem_of_filter in Hx as [Hxa Hx].
    exists a, a, x, (consume_below (consume_below (consume_below (consume_below g)))).
    split; [|repeat split; try assumption; intros [_ ->]; congruence].
    unfold bind, list_getitem, list_setitem, ret. cbn [lookup list_lookup].
    rewrite Ex. reflexivity.
  - exists a, b, c, (consume_below (consume_below (consume_below g))).
    rewrite size_three in Hw. repeat split; assumption.
Qed.

Lemma should_server_cheat_total c p g :
  exists b g',
    should_server_cheat c p g = (Ok b, g') /\
    below g' = below g /\ below_used g' = below_used g.
Proof.
  unfold should_server_cheat.
  destruct (c + p <? 40); [now exists false, g|].
  destruct ((40 <=? c + p) && (c + p <=? 60)); eexists _, _; (split; [reflexivity|now split]).
Qed.

Lemma SYMBOLS_lookup (x : string) :
  x ∈ SYMBOL_NAMES ->
  exists info, dict_get SYMBOLS x = Some info /\ 10 <= reward info <= 40.
Proof.
  unfold SYMBOL_NAMES, SYMBOLS. cbn [map fst].
  rewrite !elem_of_cons, elem_of_nil.
  intros [->|[->|[->|[->|[]]]]]; eexists; (split; [reflexivity|cbn; lia]).
Qed.

Lemma symbols_display_ok (symbols : list string) :
  Forall (fun x => x ∈ SYMBOL_NAMES) symbols ->
  exists display, forall (S : Type) (s : S),
    mapM (fun symbol => info <- dict_getitem SYMBOLS symbol ;; ret (letter info))
         symbols s = (Ok display, s).
Proof.
  induction 1 as [|x l Hx Hl IH]; [now exists []|].
  destruct IH as [display IH].
  destruct (SYMBOLS_lookup x Hx) as (info & Hinfo & _).
  exists (letter info :: display). intros S s.
  cbn [mapM].
  erewrite bind_ok; [|unfold bind, dict_getitem; rewrite Hinfo; reflexivity].
  cbn beta. erewrite bind_ok; [|apply IH]. reflexivity.
Qed.

Lemma random_choice_lookup {A} (seq : list A) g x :
  seq !! (below g (below_used g) `mod` length seq)%nat = Some x ->
  random_choice seq g = (Ok x, consume_below g).
Proof.
  intros H. unfold random_choice. destruct seq as [|y seq']; [discriminate|].
  now rewrite H.
Qed.


Lemma drawn_refl g : drawn g g 0 0.
Proof. unfold drawn. repeat split; lia. Qed.

Lemma drawn_trans g1 g2 g3 u b u' b' :
  drawn g1 g2 u b -> drawn g2 g3 u' b' -> drawn g1 g3 (u + u') (b + b').
Proof.
  unfold drawn. intros (-> & -> & Hu & Hb) (-> & -> & Hu' & Hb').
  repeat split; lia.
Qed.

Lemma drawn_below g : drawn g (consume_below g) 0 1.
Proof. unfold drawn. cbn. repeat split; lia. Qed.

Lemma drawn_uniform g : drawn g (consume_uniform g) 1 0.
Proof. unfold drawn. cbn. repeat split; lia. Qed.

Lemma generate_roll_drawn g symbols0 g1 :
  generate_roll g = (Ok symbols0, g1) ->
  drawn g g1 0 3 /\
  exists a b c, symbols0 = [a; b; c] /\
    a ∈ SYMBOL_NAMES /\ b ∈ SYMBOL_NAMES /\ c ∈ SYMBOL_NAMES.
Proof.
  intros E. destruct (generate_roll_ok g) as (a & b & c & Ha & Hb & Hc & E').
  fold generate_roll in E'. rewrite E in E'. injection E' as -> ->.
  split; [|now exists a, b, c].
  eapply (drawn_trans _ _ _ 0 2 0 1); [|apply drawn_below].
  eapply (drawn_trans _ _ _ 0 1 0 1); apply drawn_below.
Qed.

Lemma generate_losing_roll_cases g :
  exists a b c g3,
    generate_roll g = (Ok [a; b; c], g3) /\
    if check_winning_combination [a; b; c]
    then exists x,
           generate_losing_roll g = (Ok [a; b; x], consume_below g3) /\
           x ∈ SYMBOL_NAMES /\ x <> a
    else generate_losing_roll g = (Ok [a; b; c], g3).
Proof.
  destruct (generate_roll_ok g) as (a & b & c & Ha & Hb & Hc & E).
  exists a, b, c, (consume_below (consume_below (consume_below g))).
  split; [exact E|].
  unfold generate_losing_roll. rewrite (bind_ok _ _ _ _ _ E); cbn beta.
  unfold check_winning_combination.
  destruct (decide (size (list_to_set [a; b; c] : gset string) = 1%nat)) as [Hw|Hw].
  - rewrite bool_decide_eq_true_2 by exact Hw.
    apply size_three in Hw as [<- <-].
    destruct (random_choice_ok _ (consume_below (consume_below (consume_below g)))
                (available_symbols_ok a)) as (x & Hx & Ex).
    apply list_elem_of_filter in Hx as [Hxa Hx].
    exists x. split; [|split; assumption].
    unfold bind, list_getitem, list_setitem, ret. cbn [lookup list_lookup].
    rewrite Ex. reflexivity.
  - rewrite bool_decide_eq_false_2 by exact Hw. reflexivity.
Qed.

Lemma generate_losing_roll_drawn g symbols g' :
  generate_losing_roll g = (Ok symbols, g') ->
  (drawn g g' 0 3 \/ drawn g g' 0 4) /\
  length symbols = 3%nat /\
  Forall (fun x => x ∈ SYMBOL_NAMES) symbols /\
  check_winning_combination symbols = false.
Proof.
  intros E.
  destruct (generate_losing_roll_cases g) as (a & b & c & g3 & Eroll & Hcase).
  destruct (generate_roll_drawn _ _ _ Eroll)
    as (Hd & a' & b' & c' & Habc & Ha & Hb & Hc).
  injection Habc as <- <- <-.
  destruct (check_winning_combination [a; b; c]) eqn:Hw.
  - destruct Hcase as (x & E' & Hx & Hne).
    rewrite E in E'. injection E' as -> ->.
    apply check_winning_three in Hw as [<- <-].
    split; [right; eapply (drawn_trans _ _ _ 0 3 0 1); [exact Hd|apply drawn_below]|].
    split; [reflexivity|].
    split; [repeat (apply Forall_cons_2; [assumption|]); apply Forall_nil_2|].
    destruct (check_winning_combination [a; a; x]) eqn:Hw; [|reflexivity].
    apply check_winning_three in Hw as [_ ->]. contradiction.
  - rewrite E in Hcase. injection Hcase as -> ->.
    split; [left; exact Hd|]. split; [reflexivity|].
    split; [repeat (apply Forall_cons_2; [assumption|]); apply Forall_nil_2|].
    exact Hw.
Qed.

Lemma should_server_cheat_drawn c p g suppress g' :
  should_server_cheat c p g = (Ok suppress, g') ->
  if 40 <=? c + p then drawn g g' 1 0 else drawn g g' 0 0 /\ suppress = false.
Proof.
  unfold should_server_cheat.
  destruct (Z.ltb_spec (c + p) 40); destruct (Z.leb_spec 40 (c + p)); try lia.
  - intros [= <- <-]. split; [apply drawn_refl|reflexivity].
  - destruct (c + p <=? 60); intros [= <- <-]; apply drawn_uniform.
Qed.


(** ** Rewards and columns *)

Lemma reward_of_first first rest info :
  dict_get SYMBOLS first = Some info -> reward_of (first :: rest) = reward info.
Proof. intros H. unfold reward_of. now rewrite H. Qed.

Lemma reward_of_catalog x rest :
  x ∈ SYMBOL_NAMES -> In (reward_of (x :: rest)) [10; 20; 30; 40].
Proof.
  unfold SYMBOL_NAMES, SYMBOLS. cbn [map fst].
  rewrite !elem_of_cons, elem_of_nil.
  intros [->|[->|[->|[->|[]]]]]; cbn; tauto.
Qed.


Lemma fits_column_spec n :
  fits_column n = true <-> INTEGER_MIN <= n <= INTEGER_MAX.
Proof. unfold fits_column. rewrite andb_true_iff, !Z.leb_le. tauto. Qed.

Lemma fits_column_false n :
  fits_column n = false <-> n < INTEGER_MIN \/ INTEGER_MAX < n.
Proof.
  unfold fits_column. rewrite andb_false_iff, !Z.leb_gt. tauto.
Qed.

Lemma row_fits_spec s :
  row_fits s = true <->
  fits_column (credits s) = true /\ fits_column (account_credits s) = true.
Proof. unfold row_fits. apply andb_true_iff. Qed.

Lemma reward_range x info :
  dict_get SYMBOLS x = Some info -> 10 <= reward info <= 40.
Proof.
  unfold SYMBOLS. cbn [dict_get].
  repeat (destruct (decide _); [intros [= <-]; cbn; lia|]). discriminate.
Qed.

(** ** A play, step by step *)

Lemma get_active_ok d sid s :
  sessions d !! sid = Some s -> is_active s = true ->
  get_object_or_404 sid (Some true) d = (Ok s, d).
Proof.
  intros Hl Ha. unfold get_object_or_404. rewrite Hl.
  destruct (decide (is_active s = true)); [reflexivity|contradiction].
Qed.

Lemma deduct_credit_ok s d :
  1 <= credits s -> row_fits (deducted s) = true ->
  deduct_credit s d =
    (Ok (true, deducted s),
     {| sessions := <[session_id s := deducted s]> (sessions d);
        rolls := rolls d;
        journal := journal d ++ [SaveSession (deducted s)] |}).
Proof.
  intros Hc Hd. unfold deduct_credit, can_play.
  destruct (Z.leb_spec 1 (credits s)); [|lia].
  unfold bind, save. fold (deducted s). rewrite Hd. reflexivity.
Qed.

Lemma deduct_credit_overflow s d :
  1 <= credits s -> row_fits (deducted s) = false ->
  deduct_credit s d = (Raise too_large, d).
Proof.
  intros Hc Hd. unfold deduct_credit, can_play.
  destruct (Z.leb_spec 1 (credits s)); [|lia].
  unfold bind, save. fold (deducted s). rewrite Hd. reflexivity.
Qed.

Ltac roll_slots_simpl :=
  unfold row_fits, roll_fits;
  cbn [db rng fst snd negb andb sessions rolls journal credits account_credits
       session_id set_credits deducted
       l_symbols l_is_winning l_credits_won l_was_rerolled
       row_fits roll_fits credits_before credits_after credits_won].

Ltac roll_slots_begin Hl Ha Hcp Hc Hd Eroll Hwin Hdisp :=
  unfold roll_slots, try_except, bind, with_db, with_rng, ret;
  unfold bind, ret in Hdisp;
  rewrite (get_active_ok _ _ _ Hl Ha); roll_slots_simpl;
  rewrite Hcp; roll_slots_simpl;
  rewrite (deduct_credit_ok _ _ Hc Hd); roll_slots_simpl;
  rewrite Eroll; roll_slots_simpl;
  rewrite Hwin;
  unfold list_getitem, dict_getitem, raise, ret, add_credits, save, GameRoll_create,
    bind, ret;
  cbn [lookup list_lookup]; roll_slots_simpl.

(** The world a play leaves when it stores its roll, and the one it leaves
    when a write after the deduction overflows. *)
Lemma roll_slots_effect w sid now s :
  sessions (db w) !! sid = Some s -> is_active s = true -> 1 <= credits s ->
  row_fits (deducted s) = true ->
  exists symbols0 g1 roll display g',
    generate_roll (rng w) = (Ok symbols0, g1) /\
    (if fits_column (credits s) && fits_column (credits_after roll)
     then
       roll_slots sid now w =
         (Ok (RollResponse (symbols roll) display (was_winning_roll roll)
                (credits_won roll) (credits_after roll) (was_rerolled roll)),
          {| db := {| sessions := <[session_id s := set_credits (credits_after roll) s]>
                                    (sessions (db w));
                      rolls := rolls (db w) ++ [roll];
                      journal := journal (db w)
                        ++ SaveSession (deducted s)
                        :: (if was_winning_roll roll
                            then [SaveSession (set_credits (credits_after roll) s)]
                            else [])
                        ++ [InsertRoll roll] |};
             rng := g' |})
     else
       roll_slots sid now w =
         (Ok OverflowFailure,
          {| db := {| sessions := <[session_id s := deducted s]> (sessions (db w));
                      rolls := rolls (db w);
                      journal := journal (db w) ++ [SaveSession (deducted s)] |};
             rng := g' |})) /\
    played_roll s roll /\
    roll_created_at roll = now /\
    (check_winning_combination symbols0 = false ->
       symbols roll = symbols0 /\ was_winning_roll roll = false /\
       was_rerolled roll = false /\ credits_won roll = 0 /\ g' = g1) /\
    (check_winning_combination symbols0 = true ->
       exists first info suppress g2,
         symbols0 !! 0%nat = Some first /\ dict_get SYMBOLS first = Some info /\
         should_server_cheat (credits s - 1) (reward info) g1 = (Ok suppress, g2) /\
         was_rerolled roll = suppress /\ was_winning_roll roll = negb suppress /\
         credits_won roll = (if suppress then 0 else reward info) /\
         (if suppress then generate_losing_roll g2 = (Ok (symbols roll), g')
          else symbols roll = symbols0 /\ g' = g2)) /\
    (if was_rerolled roll
     then drawn (rng w) g' 1 6 \/ drawn (rng w) g' 1 7
     else if was_winning_roll roll && (40 <=? credits_after roll)
          then drawn (rng w) g' 1 3
          else drawn (rng w) g' 0 3).
Proof.
  intros Hl Ha Hc Hd.
  assert (Hcp : can_play s = true) by (apply Z.leb_le; exact Hc).
  assert (Hf0 : fits_column 0 = true) by reflexivity.
  pose proof Hd as Hd'. apply row_fits_spec in Hd' as [Hfd Hfa].
  cbn [deducted set_credits credits account_credits] in Hfd, Hfa.
  destruct (generate_roll_ok (rng w)) as (a & b & c & Hia & Hib & Hic & Eroll).
  fold generate_roll in Eroll.
  destruct (generate_roll_drawn _ _ _ Eroll) as (Hdr & _).
  set (g1 := consume_below (consume_below (consume_below (rng w)))) in *.
  exists [a; b; c], g1.
  assert (Hcat : Forall (fun x => x ∈ SYMBOL_NAMES) [a; b; c])
    by (repeat (apply Forall_cons_2; [assumption|]); apply Forall_nil_2).
  destruct (check_winning_combination [a; b; c]) eqn:Hwin.
  - pose proof Hwin as Hwin'. apply check_winning_three in Hwin' as [<- <-].
    destruct (SYMBOLS_lookup a Hia) as (info & Hinfo & Hrange).
    destruct (should_server_cheat_total (credits s - 1) (reward info) g1)
      as (suppress & g2 & Echeat & _).
    pose proof (should_server_cheat_drawn _ _ _ _ _ Echeat) as Hcd.
    destruct suppress.
    + destruct (generate_losing_roll_ok g2)
        as (x & y & z & g3 & Elose & Hx & Hy & Hz & Hnw & _).
      destruct (generate_losing_roll_drawn _ _ _ Elose) as (Hld & Hlen & Hall & Hnwb).
      destruct (symbols_display_ok [x; y; z]) as [display Hdisp]; [exact Hall|].
      exists {| session := session_id s; symbols := [x; y; z];
                credits_before := credits s; credits_after := credits s - 1;
                credits_won := 0; was_winning_roll := false; was_rerolled := true;
                roll_created_at := now |}, display, g3.
      cbn [session symbols credits_before credits_after credits_won
           was_winning_roll was_rerolled roll_created_at].
      split; [exact Eroll|]. split.
      { rewrite Hfd, andb_true_r.
        destruct (fits_column (credits s)) eqn:Hfc;
          roll_slots_begin Hl Ha Hcp Hc Hd Eroll Hwin Hdisp;
          rewrite Hinfo; roll_slots_simpl;
          rewrite Echeat; roll_slots_simpl;
          rewrite Elose; roll_slots_simpl;
          rewrite Hfc, ?Hfd, ?Hf0; roll_slots_simpl.
        - rewrite Hdisp. rewrite <- app_assoc. reflexivity.
        - reflexivity. }
      split.
      { unfold played_roll. cbn. rewrite Hnwb.
        repeat split; try assumption; try lia; reflexivity. }
      split; [reflexivity|]. split; [discriminate|]. split.
      { intros _. exists a, info, true, g2. repeat split; assumption. }
      destruct (40 <=? credits s - 1 + reward info); [|destruct Hcd; discriminate].
      pose proof (drawn_trans _ _ _ _ _ _ _ Hdr Hcd) as Hd2.
      destruct Hld as [Hld|Hld]; [left|right];
        exact (drawn_trans _ _ _ _ _ _ _ Hd2 Hld).
    + destruct (symbols_display_ok [a; a; a]) as [display Hdisp]; [exact Hcat|].
      exists {| session := session_id s; symbols := [a; a; a];
                credits_before := credits s;
                credits_after := credits s - 1 + reward info;
                credits_won := reward info; was_winning_roll := true;
                was_rerolled := false; roll_created_at := now |}, display, g2.
      cbn [session symbols credits_before credits_after credits_won
           was_winning_roll was_rerolled roll_created_at].
      split; [exact Eroll|]. split.
      { assert (Hfw : fits_column (reward info) = true)
          by (apply fits_column_spec; unfold INTEGER_MIN, INTEGER_MAX; lia).
        destruct (fits_column (credits s - 1 + reward info)) eqn:Hfw'.
        - assert (Hfc : fits_column (credits s) = true).
          { apply fits_column_spec in Hfw'. apply fits_column_spec.
            unfold INTEGER_MIN, INTEGER_MAX in *. lia. }
          rewrite Hfc. cbn [andb].
          roll_slots_begin Hl Ha Hcp Hc Hd Eroll Hwin Hdisp.
          rewrite Hinfo. roll_slots_simpl.
          rewrite Echeat. roll_slots_simpl.
          rewrite ?Hfw', ?Hfa, ?Hfc, ?Hfw. roll_slots_simpl.
          rewrite ?Hfw', ?Hfa, ?Hfc, ?Hfw. roll_slots_simpl.
          rewrite Hdisp. rewrite insert_insert_eq, <- !app_assoc. reflexivity.
        - rewrite andb_false_r.
          roll_slots_begin Hl Ha Hcp Hc Hd Eroll Hwin Hdisp.
          rewrite Hinfo. roll_slots_simpl.
          rewrite Echeat. roll_slots_simpl.
          rewrite Hfw'. roll_slots_simpl. reflexivity. }
      split.
      { unfold played_roll. cbn [session symbols credits_before credits_after
          credits_won was_winning_roll was_rerolled length].
        rewrite Hwin, (reward_of_first _ _ _ Hinfo).
        repeat split; try assumption; try lia; discriminate. }
      split; [reflexivity|]. split; [discriminate|]. split.
      { intros _. exists a, info, false, g2. repeat split; assumption. }
      cbn [andb]. destruct (40 <=? credits s - 1 + reward info).
      * exact (drawn_trans _ _ _ _ _ _ _ Hdr Hcd).
      * destruct Hcd as [Hcd _]. exact (drawn_trans _ _ _ _ _ _ _ Hdr Hcd).
  - destruct (symbols_display_ok [a; b; c]) as [display Hdisp]; [exact Hcat|].
    exists {| session := session_id s; symbols := [a; b; c];
              credits_before := credits s; credits_after := credits s - 1;
              credits_won := 0; was_winning_roll := false; was_rerolled := false;
              roll_created_at := now |}, display, g1.
    cbn [session symbols credits_before credits_after credits_won
         was_winning_roll was_rerolled roll_created_at].
    split; [exact Eroll|]. split.
    { rewrite Hfd, andb_true_r.
      destruct (fits_column (credits s)) eqn:Hfc;
        roll_slots_begin Hl Ha Hcp Hc Hd Eroll Hwin Hdisp;
        rewrite Hfc, ?Hfd, ?Hf0; roll_slots_simpl.
      - rewrite Hdisp. rewrite <- app_assoc. reflexivity.
      - reflexivity. }
    split.
    { unfold played_roll. cbn. rewrite Hwin.
      repeat split; try assumption; try lia; reflexivity. }
    split; [reflexivity|]. split; [auto|]. split; [discriminate|].
    cbn [andb]. exact Hdr.
Qed.
(** ** The views, case by case *)

Lemma get_active_missing d sid :
  (sessions d !! sid = None \/
   exists s, sessions d !! sid = Some s /\ is_active s = false) ->
  get_object_or_404 sid (Some true) d
  = (Raise (Http404 "No GameSession matches the given query."), d).
Proof.
  unfold get_object_or_404. intros [->|(s & -> & Hs)]; [reflexivity|].
  destruct (decide (is_active s = true)); [congruence|reflexivity].
Qed.

Lemma roll_slots_missing w sid now :
  (sessions (db w) !! sid = None \/
   exists s, sessions (db w) !! sid = Some s /\ is_active s = false) ->
  roll_slots sid now w = (Ok SessionNotFoundOrInactive, w).
Proof.
  intros H. unfold roll_slots.
  erewrite try_except_raise.
  2:{ apply bind_raise, with_db_run, get_active_missing, H. }
  unfold ret. now rewrite world_eta.
Qed.

Lemma cash_out_missing w sid :
  (sessions (db w) !! sid = None \/
   exists s, sessions (db w) !! sid = Some s /\ is_active s = false) ->
  views.cash_out sid w = (Ok SessionNotFoundOrInactive, w).
Proof.
  intros H. unfold views.cash_out.
  erewrite try_except_raise.
  2:{ apply bind_raise, with_db_run, get_active_missing, H. }
  unfold ret. now rewrite world_eta.
Qed.

Lemma roll_slots_broke w sid now s :
  sessions (db w) !! sid = Some s -> is_active s = true -> credits s < 1 ->
  roll_slots sid now w = (Ok InsufficientCredits, w).
Proof.
  intros Hl Ha Hc. unfold roll_slots.
  erewrite try_except_ok; [reflexivity|].
  erewrite bind_ok; [|apply with_db_run, get_active_ok; eassumption].
  unfold can_play. destruct (Z.leb_spec 1 (credits s)); [lia|].
  cbn [negb]. unfold ret. now rewrite world_eta.
Qed.

Lemma roll_slots_refused w sid now s :
  sessions (db w) !! sid = Some s -> is_active s = true -> 1 <= credits s ->
  row_fits (deducted s) = false ->
  roll_slots sid now w = (Ok OverflowFailure, w).
Proof.
  intros Hl Ha Hc Hd. unfold roll_slots.
  erewrite try_except_raise.
  2:{ erewrite bind_ok; [|apply with_db_run, get_active_ok; eassumption].
      unfold can_play. destruct (Z.leb_spec 1 (credits s)); [|lia]. cbn [negb].
      apply bind_raise, with_db_run, deduct_credit_overflow; assumption. }
  unfold ret. cbn [db rng]. now rewrite world_eta.
Qed.

Lemma row_fits_cashed_out s :
  row_fits (cashed_out s) = fits_column (account_credits s + credits s).
Proof. reflexivity. Qed.

Lemma cash_out_done w sid s :
  sessions (db w) !! sid = Some s -> is_active s = true ->
  fits_column (account_credits s + credits s) = true ->
  views.cash_out sid w =
    (Ok (CashOutResponse true (account_credits s + credits s)
           ("Successfully cashed out "
            +:+ pretty (0 + (account_credits s + credits s)) +:+ " credits!")),
     {| db := {| sessions := <[session_id s := cashed_out s]> (sessions (db w));
                 rolls := rolls (db w);
                 journal := journal (db w) ++ [SaveSession (cashed_out s)] |};
        rng := rng w |}).
Proof.
  intros Hl Ha Hf. unfold views.cash_out.
  erewrite try_except_ok; [reflexivity|].
  erewrite bind_ok; [|apply with_db_run, get_active_ok; eassumption].
  unfold bind, with_db, models.cash_out, bind, save, ret. cbn [db rng].
  unfold row_fits.
  cbn [credits account_credits set_is_active set_credits set_account_credits].
  change (fits_column 0) with true. rewrite Hf. reflexivity.
Qed.

Lemma cash_out_overflow w sid s :
  sessions (db w) !! sid = Some s -> is_active s = true ->
  fits_column (account_credits s + credits s) = false ->
  views.cash_out sid w = (Ok OverflowFailure, w).
Proof.
  intros Hl Ha Hf. unfold views.cash_out.
  erewrite try_except_raise.
  2:{ erewrite bind_ok; [|apply with_db_run, get_active_ok; eassumption].
      unfold bind, with_db, models.cash_out, bind, save, ret. cbn [db rng].
      unfold row_fits.
      cbn [credits account_credits set_is_active set_credits set_account_credits].
      change (fits_column 0) with true. rewrite Hf. reflexivity. }
  unfold ret. cbn [db rng]. now rewrite world_eta.
Qed.

Lemma get_session_status_pure w sid : snd (get_session_status sid w) = w.
Proof.
  unfold get_session_status, try_except, bind, with_db, get_object_or_404, ret.
  destruct (sessions (db w) !! sid); cbn; apply world_eta.
Qed.

Lemma played_roll_won s roll : played_roll s roll -> 0 <= credits_won roll <= 40.
Proof.
  intros (_ & _ & _ & _ & Hcat & _ & Hwon & _). rewrite Hwon.
  destruct (was_winning_roll roll); [|lia].
  destruct (symbols roll) as [|x rest]; [cbn; lia|].
  apply Forall_cons_1 in Hcat as [Hx _].
  pose proof (reward_of_catalog x rest Hx) as H.
  set (v := reward_of (x :: rest)) in *. cbn [In] in H. intuition lia.
Qed.

(** ** One request, seen from the database *)

Lemma step_db_change r w : db_change (db w) (db (step r w)).
Proof.
  unfold step. destruct r as [uuid now|sid now|sid|sid]; cbn [dispatch].
  - unfold create_session, bind, with_db, GameSession_create.
    destruct (sessions (db w) !! uuid) eqn:E; cbn.
    + do 2 constructor.
    + constructor. now apply db_created.
  - destruct (sessions (db w) !! sid) as [s|] eqn:Hl.
    2:{ rewrite roll_slots_missing by now left. do 2 constructor. }
    destruct (is_active s) eqn:Ha.
    2:{ rewrite roll_slots_missing by (right; eauto). do 2 constructor. }
    destruct (Z.le_gt_cases 1 (credits s)) as [Hc|Hc].
    2:{ erewrite roll_slots_broke by (eassumption || lia). do 2 constructor. }
    destruct (row_fits (deducted s)) eqn:Hd.
    2:{ erewrite roll_slots_refused by eassumption. do 2 constructor. }
    destruct (roll_slots_effect w sid now s Hl Ha Hc Hd)
      as (symbols0 & g1 & roll & display & g' & _ & E & Hroll & _).
    pose proof (played_roll_won _ _ Hroll) as Hwon.
    pose proof Hroll as (_ & _ & Hafter & _).
    apply row_fits_spec in Hd as Hd'. destruct Hd' as [Hfd Hfa].
    cbn [deducted set_credits credits account_credits] in Hfd, Hfa.
    destruct (fits_column (credits s)) eqn:Hfc;
      [destruct (fits_column (credits_after roll)) eqn:Hfr|];
      cbn [andb] in E; rewrite E; cbn [snd db].
    + constructor. eapply db_played; try eassumption.
      apply row_fits_spec. cbn. now split.
    + eapply change_aborted; try eassumption.
      apply fits_column_false in Hfr. unfold INTEGER_MIN, INTEGER_MAX in *. lia.
    + eapply change_aborted; try eassumption.
      apply fits_column_false in Hfc. unfold INTEGER_MIN, INTEGER_MAX in *. lia.
  - destruct (sessions (db w) !! sid) as [s|] eqn:Hl.
    2:{ rewrite cash_out_missing by now left. do 2 constructor. }
    destruct (is_active s) eqn:Ha.
    2:{ rewrite cash_out_missing by (right; eauto). do 2 constructor. }
    destruct (fits_column (account_credits s + credits s)) eqn:Hf.
    + rewrite (cash_out_done w sid s Hl Ha Hf). cbn [snd db].
      constructor. eapply db_cashed_out; eassumption.
    + rewrite (cash_out_overflow w sid s Hl Ha Hf). do 2 constructor.
  - rewrite get_session_status_pure. do 2 constructor.
Qed.

(** ** One request, seen from the table of sessions *)

Lemma db_change_session_update d d' :
  db_change d d' -> session_update (sessions d) (sessions d').
Proof.
  intros [d1 [|uuid now Hfresh|sid s roll Hl Ha Hc Hroll Hf|sid s Hl Ha Hf]
         |sid s Hl Ha Hc Hd Hmax]; cbn [sessions].
  - constructor.
  - now apply update_create.
  - pose proof (played_roll_won _ _ Hroll) as Hwon.
    destruct Hroll as (_ & _ & Hafter & _).
    eapply update_play; eauto. lia.
  - eapply update_cash_out; eauto.
  - eapply update_play; eauto. cbn. lia.
Qed.

Lemma step_session_update r w :
  session_update (sessions (db w)) (sessions (db (step r w))).
Proof. apply db_change_session_update, step_db_change. Qed.

Section Invariants.
Variables m m' : gmap N GameSession.
Hypothesis Hstep : session_update m m'.

(** Each invariant speaks of one row [k]: either the request wrote another
    row, and the invariant is inherited, or it wrote [k], and the new row [x]
    is known. *)
Ltac written_row Hm k x Hk :=
  destruct Hstep as [|uuid now Hfresh|sid s c Hl Ha Hc Hle|sid s Hl Ha];
  [assumption|..]; intros k x Hk;
  (destruct (decide (k = uuid)) as [->|Hne] ||
   destruct (decide (k = session_id s)) as [->|Hne]);
  rewrite ?lookup_insert_eq, ?lookup_insert_ne in Hk by congruence;
  try (eapply Hm; eassumption);
  injection Hk as <-.

Lemma nonnegative_update : nonnegative m -> nonnegative m'.
Proof.
  intros Hm. written_row Hm k x Hk; cbn; try lia.
  - split; [lia | eapply Hm; eassumption].
  - destruct (Hm _ _ Hl). lia.
Qed.

Lemma keyed_update : keyed m -> keyed m'.
Proof. intros Hm. written_row Hm k x Hk; reflexivity. Qed.

Lemma closed_is_empty_update : closed_is_empty m -> closed_is_empty m'.
Proof. intros Hm. written_row Hm k x Hk; cbn; congruence. Qed.

(** Under its own key a closed session is out of every request's reach. *)
Lemma closed_session_frozen sid s :
  keyed m -> m !! sid = Some s -> is_active s = false -> m' !! sid = Some s.
Proof.
  intros Hkey Hl Hclosed.
  destruct Hstep as [|uuid now Hfresh|sid' s' c Hl' Ha' Hc Hle|sid' s' Hl' Ha'];
    [assumption|..].
  - rewrite lookup_insert_ne by congruence. assumption.
  - rewrite lookup_insert_ne; [assumption|].
    rewrite (Hkey _ _ Hl'). congruence.
  - rewrite lookup_insert_ne; [assumption|].
    rewrite (Hkey _ _ Hl'). congruence.
Qed.
End Invariants.

(** ** Reachable states *)

Lemma reachable_run rs w : reachable w -> reachable (run rs w).
Proof.
  revert w. induction rs as [|r rs IH]; intros w Hw; [exact Hw|].
  apply IH. now constructor.
Qed.

Lemma reachable_invariants w :
  reachable w ->
  nonnegative (sessions (db w)) /\ keyed (sessions (db w)) /\
  closed_is_empty (sessions (db w)).
Proof.
  induction 1 as [g|w r Hw (Hn & Hk & Hc)].
  - split; [|split]; intros ? ? Hl; cbn in Hl; rewrite lookup_empty in Hl;
      discriminate.
  - pose proof (step_session_update r w) as Hu.
    split; [|split];
      [eapply nonnegative_update | eapply keyed_update | eapply closed_is_empty_update];
      eassumption.
Qed.


(** ** The ledger and its audit trail *)

Lemma net_winnings_app sid l1 l2 :
  net_winnings sid (l1 ++ l2) = net_winnings sid l1 + net_winnings sid l2.
Proof. induction l1 as [|r l1 IH]; cbn [app net_winnings]; lia. Qed.

Lemma net_winnings_absent sid l :
  (forall r, r ∈ l -> session r <> sid) -> net_winnings sid l = 0.
Proof.
  induction l as [|r l IH]; intros H; [reflexivity|]. cbn [net_winnings].
  destruct (decide (session r = sid)) as [E|_].
  - exfalso. apply (H r); [left|exact E].
  - rewrite IH; [reflexivity|]. intros r' Hr'. apply H. now right.
Qed.

Lemma app_snoc_cases {A} (l before after : list A) (x r : A) :
  l ++ [x] = before ++ r :: after ->
  (after = [] /\ before = l /\ r = x) \/
  (exists after', after = after' ++ [x] /\ l = before ++ r :: after').
Proof.
  revert l. induction before as [|b before IH]; intros l E.
  - destruct l as [|y l]; cbn in E.
    + injection E as <- <-. now left.
    + injection E as -> <-. right. now exists l.
  - destruct l as [|y l]; cbn in E.
    + injection E as -> E. now destruct before.
    + injection E as -> E. destruct (IH _ E) as [(-> & -> & ->)|(a' & -> & ->)].
      * now left.
      * right. now exists a'.
Qed.

Ltac other_row Hk k key :=
  destruct (decide (k = key)) as [->|?];
  [rewrite lookup_insert_eq in Hk; injection Hk as <-
  |rewrite lookup_insert_ne in Hk by congruence].

Lemma ledger_kept_empty : ledger_kept empty_database.
Proof.
  split; cbn; try (intros ? ? H; rewrite lookup_empty in H; discriminate).
  - intros r H. inversion H.
  - constructor.
Qed.

Lemma ledger_kept_change d d' :
  db_change d d' -> ledger_kept d -> ledger_kept d'.
Proof.
  intros Hu [Hkey Hfk Hacc Hclosed Hrows Hrolls].
  destruct Hu as [d1 [|uuid now Hfresh|sid s roll Hl Ha Hc Hroll Hf|sid s Hl Ha Hf]
                 |sid s Hl Ha Hc Hd Hmax].
  - now split.
  - split; cbn [sessions rolls]; try assumption.
    + intros k x Hk. other_row Hk k uuid; [reflexivity|eauto].
    + intros r Hr. apply lookup_insert_is_Some'. right. auto.
    + intros k x Hk Hx. other_row Hk k uuid; [reflexivity|eauto].
    + intros k x Hk Hx. other_row Hk k uuid; [discriminate|eauto].
    + intros k x Hk. other_row Hk k uuid; [cbn; repeat split; lia|eauto].
  - pose proof (played_roll_won _ _ Hroll) as Hwon.
    destruct Hroll as (Hs & Hb & Hafter & Hlen & Hcat & Hwin & Hwon' & Hre).
    pose proof (Hkey _ _ Hl) as Hid. destruct (Hrows _ _ Hl) as (Hc0 & Ha0 & _).
    split; cbn [sessions rolls].
    + intros k x Hk. other_row Hk k (session_id s); [reflexivity|eauto].
    + intros r Hr. apply lookup_insert_is_Some'. right.
      apply elem_of_app in Hr as [Hr|Hr]; [auto|].
      apply list_elem_of_singleton in Hr as ->. rewrite Hs, Hid. eauto.
    + intros k x Hk Hx. other_row Hk k (session_id s); [cbn; eauto|eauto].
    + intros k x Hk Hx. other_row Hk k (session_id s); [cbn in Hx; congruence|eauto].
    + intros k x Hk. other_row Hk k (session_id s); [|eauto].
      cbn [credits account_credits set_credits]. repeat split; try assumption. lia.
    + apply Forall_app. split; [exact Hrolls|].
      apply Forall_cons_2; [|apply Forall_nil_2].
      unfold roll_sound. rewrite Hb. repeat split; try assumption.
  - pose proof (Hkey _ _ Hl) as Hid. destruct (Hrows _ _ Hl) as (Hc0 & Ha0 & _).
    split; cbn [sessions rolls]; try assumption.
    + intros k x Hk. other_row Hk k (session_id s); [reflexivity|eauto].
    + intros r Hr. apply lookup_insert_is_Some'. right. auto.
    + intros k x Hk Hx. other_row Hk k (session_id s); [discriminate|eauto].
    + intros k x Hk Hx. other_row Hk k (session_id s); [reflexivity|eauto].
    + intros k x Hk. other_row Hk k (session_id s); [|eauto].
      cbn [credits account_credits cashed_out]. repeat split; try lia.
      now rewrite row_fits_cashed_out.
  - pose proof (Hkey _ _ Hl) as Hid. destruct (Hrows _ _ Hl) as (Hc0 & Ha0 & _).
    split; cbn [sessions rolls]; try assumption.
    + intros k x Hk. other_row Hk k (session_id s); [reflexivity|eauto].
    + intros r Hr. apply lookup_insert_is_Some'. right. auto.
    + intros k x Hk Hx. other_row Hk k (session_id s); [cbn; eauto|eauto].
    + intros k x Hk Hx. other_row Hk k (session_id s); [cbn in Hx; congruence|eauto].
    + intros k x Hk. other_row Hk k (session_id s); [|eauto].
      cbn [credits account_credits deducted set_credits].
      repeat split; try assumption. lia.
Qed.

Lemma reachable_ledger_kept w : reachable w -> ledger_kept (db w).
Proof.
  induction 1 as [g|w r Hw IH]; [apply ledger_kept_empty|].
  eapply ledger_kept_change; [apply step_db_change|exact IH].
Qed.

Lemma ledger_exact_empty : ledger_exact empty_database.
Proof.
  split; cbn.
  - intros ? ? H. rewrite lookup_empty in H. discriminate.
  - intros before r after H. now destruct before.
Qed.

Lemma ledger_exact_update d d' :
  db_update d d' -> ledger_kept d -> ledger_exact d -> ledger_exact d'.
Proof.
  intros Hu [Hkey Hfk Hacc Hclosed Hrows Hrolls] [Hcons Hcont].
  destruct Hu as [|uuid now Hfresh|sid s roll Hl Ha Hc Hroll Hf|sid s Hl Ha Hf].
  - now split.
  - split; cbn [sessions rolls]; [|exact Hcont].
    intros k x Hk. other_row Hk k uuid; [|eauto]. cbn.
    rewrite net_winnings_absent; [reflexivity|].
    intros r Hr E. destruct (Hfk r Hr) as [y Hy]. congruence.
  - destruct Hroll as (Hs & Hb & Hafter & _).
    pose proof (Hkey _ _ Hl) as Hid.
    split; cbn [sessions rolls].
    + intros k x Hk. rewrite net_winnings_app. cbn [net_winnings].
      destruct (decide (k = session_id s)) as [->|Hne].
      * rewrite lookup_insert_eq in Hk. injection Hk as <-. cbn.
        rewrite Hid in *. specialize (Hcons _ _ Hl).
        destruct (decide (session roll = sid)); [lia|congruence].
      * rewrite lookup_insert_ne in Hk by congruence.
        specialize (Hcons _ _ Hk).
        destruct (decide (session roll = k)); [congruence|lia].
    + intros before r after E.
      apply app_snoc_cases in E as [(-> & -> & ->)|(after' & -> & E)]; [|eauto].
      rewrite Hb, Hs, Hid. specialize (Hcons _ _ Hl). specialize (Hacc _ _ Hl Ha). lia.
  - pose proof (Hkey _ _ Hl) as Hid.
    split; cbn [sessions rolls]; [|exact Hcont].
    intros k x Hk. other_row Hk k (session_id s); [|eauto]. cbn.
    rewrite Hid in *. specialize (Hcons _ _ Hl). lia.
Qed.

(** ** The three ways a play on an active session with credits can end *)

Lemma roll_slots_cases w sid now s :
  sessions (db w) !! sid = Some s -> is_active s = true -> 1 <= credits s ->
  (row_fits (deducted s) = false /\
   roll_slots sid now w = (Ok OverflowFailure, w))
  \/
  (row_fits (deducted s) = true /\ INTEGER_MAX < credits s + 39 /\
   exists g' u b,
     roll_slots sid now w =
       (Ok OverflowFailure,
        {| db := {| sessions := <[session_id s := deducted s]> (sessions (db w));
                    rolls := rolls (db w);
                    journal := journal (db w) ++ [SaveSession (deducted s)] |};
           rng := g' |}) /\
     drawn (rng w) g' u b /\ In (u, b) [(0, 3); (1, 3); (1, 6); (1, 7)]%nat)
  \/
  (exists roll display g' u b,
     roll_slots sid now w =
       (Ok (RollResponse (symbols roll) display (was_winning_roll roll)
              (credits_won roll) (credits_after roll) (was_rerolled roll)),
        {| db := {| sessions := <[session_id s := set_credits (credits_after roll) s]>
                                  (sessions (db w));
                    rolls := rolls (db w) ++ [roll];
                    journal := journal (db w)
                      ++ SaveSession (deducted s)
                      :: (if was_winning_roll roll
                          then [SaveSession (set_credits (credits_after roll) s)]
                          else [])
                      ++ [InsertRoll roll] |};
           rng := g' |}) /\
     played_roll s roll /\ roll_created_at roll = now /\
     row_fits (set_credits (credits_after roll) s) = true /\
     fits_column (credits s) = true /\
     drawn (rng w) g' u b /\ In (u, b) [(0, 3); (1, 3); (1, 6); (1, 7)]%nat).
Proof.
  intros Hl Ha Hc.
  destruct (row_fits (deducted s)) eqn:Hd.
  2:{ left. split; [reflexivity|]. eapply roll_slots_refused; eassumption. }
  right.
  destruct (roll_slots_effect w sid now s Hl Ha Hc Hd)
    as (symbols0 & g1 & roll & display & g' & _ & E & Hroll & Hnow & _ & _ & Hdr).
  pose proof (played_roll_won _ _ Hroll) as Hwon.
  pose proof Hroll as (_ & _ & Hafter & _).
  apply row_fits_spec in Hd as Hd'. destruct Hd' as [Hfd Hfa].
  cbn [deducted set_credits credits account_credits] in Hfd, Hfa.
  assert (Hdraws : exists u b, drawn (rng w) g' u b /\
                     In (u, b) [(0, 3); (1, 3); (1, 6); (1, 7)]%nat).
  { destruct (was_rerolled roll); [destruct Hdr as [Hdr|Hdr]|];
      [| |destruct (was_winning_roll roll && (40 <=? credits_after roll))];
      eexists _, _; (split; [exact Hdr|cbn; tauto]). }
  destruct Hdraws as (u & b & Hdraws & Hin).
  destruct (fits_column (credits s)) eqn:Hfc;
    [destruct (fits_column (credits_after roll)) eqn:Hfr|]; cbn [andb] in E.
  - right. exists roll, display, g', u, b.
    split; [exact E|]. split; [exact Hroll|]. split; [exact Hnow|].
    split; [apply row_fits_spec; cbn; now split|].
    split; [reflexivity|]. now split.
  - left. split; [reflexivity|]. split.
    + apply fits_column_false in Hfr. unfold INTEGER_MIN, INTEGER_MAX in *. lia.
    + now exists g', u, b.
  - left. split; [reflexivity|]. split.
    + apply fits_column_false in Hfc. unfold INTEGER_MIN, INTEGER_MAX in *. lia.
    + now exists g', u, b.
Qed.

Lemma deducted_fits s :
  row_fits s = true -> 1 <= credits s -> row_fits (deducted s) = true.
Proof.
  rewrite !row_fits_spec. cbn [deducted set_credits credits account_credits].
  rewrite !fits_column_spec. unfold INTEGER_MIN, INTEGER_MAX. lia.
Qed.

Lemma roll_slots_in_range w sid now s :
  sessions (db w) !! sid = Some s -> is_active s = true -> 1 <= credits s ->
  row_fits s = true -> credits s + 39 <= INTEGER_MAX ->
  exists roll display g',
    roll_slots sid now w =
      (Ok (RollResponse (symbols roll) display (was_winning_roll roll)
             (credits_won roll) (credits_after roll) (was_rerolled roll)),
       {| db := {| sessions := <[session_id s := set_credits (credits_after roll) s]>
                                 (sessions (db w));
                   rolls := rolls (db w) ++ [roll];
                   journal := journal (db w)
                     ++ SaveSession (deducted s)
                     :: (if was_winning_roll roll
                         then [SaveSession (set_credits (credits_after roll) s)]
                         else [])
                     ++ [InsertRoll roll] |};
          rng := g' |}) /\
    played_roll s roll.
Proof.
  intros Hl Ha Hc Hf Hmax.
  destruct (roll_slots_cases w sid now s Hl Ha Hc)
    as [(Hd & _)|[(_ & Hover & _)|(roll & display & g' & u & b & E & Hroll & _)]].
  - rewrite (deducted_fits s Hf Hc) in Hd. discriminate.
  - lia.
  - now exists roll, display, g'.
Qed.

(** ** Runs too short for a balance to reach the column bound *)

Lemma reachable_in_reachable n w : reachable_in n w -> reachable w.
Proof. induction 1; now constructor. Qed.

Lemma step_db_update_in_range r w :
  ledger_kept (db w) ->
  (forall sid s, sessions (db w) !! sid = Some s -> credits s + 39 <= INTEGER_MAX) ->
  db_update (db w) (db (step r w)).
Proof.
  intros [_ _ _ _ _ _] Hmax.
  destruct (step_db_change r w) as [d' Hu|sid s Hl Ha Hc Hd Hover]; [exact Hu|].
  specialize (Hmax _ _ Hl). lia.
Qed.

Lemma db_update_bound d d' B :
  db_update d d' -> 10 <= B -> ledger_kept d ->
  (forall sid s, sessions d !! sid = Some s -> credits s <= B) ->
  forall sid s, sessions d' !! sid = Some s -> credits s <= B + 39.
Proof.
  intros Hu HB [_ _ _ _ Hrows _] Hb.
  destruct Hu as [|uuid now Hfresh|k x roll Hl Ha Hc Hroll Hf|k x Hl Ha Hf];
    intros sid s Hk; cbn [sessions] in Hk.
  - specialize (Hb _ _ Hk). lia.
  - other_row Hk sid uuid; [cbn; lia|]. specialize (Hb _ _ Hk). lia.
  - pose proof (played_roll_won _ _ Hroll) as Hwon.
    destruct Hroll as (_ & _ & Hafter & _).
    other_row Hk sid (session_id x).
    + cbn. specialize (Hb _ _ Hl). lia.
    + specialize (Hb _ _ Hk). lia.
  - other_row Hk sid (session_id x); [cbn; lia|]. specialize (Hb _ _ Hk). lia.
Qed.

Lemma reachable_in_exact n w :
  reachable_in n w -> 10 + 39 * Z.of_nat n <= INTEGER_MAX ->
  ledger_exact (db w) /\
  forall sid s, sessions (db w) !! sid = Some s -> credits s <= 10 + 39 * Z.of_nat n.
Proof.
  induction 1 as [g|n w r Hw IH]; intros Hmax.
  - split; [apply ledger_exact_empty|].
    intros sid s H. cbn in H. rewrite lookup_empty in H. discriminate.
  - destruct IH as [Hexact Hb]; [lia|].
    pose proof (reachable_ledger_kept w (reachable_in_reachable _ _ Hw)) as Hkept.
    assert (Hu : db_update (db w) (db (step r w))).
    { apply step_db_update_in_range; [exact Hkept|].
      intros sid s Hl. specialize (Hb _ _ Hl). lia. }
    split; [eapply ledger_exact_update; eassumption|].
    intros sid s Hl.
    pose proof (db_update_bound _ _ (10 + 39 * Z.of_nat n) Hu ltac:(lia) Hkept Hb
                  sid s Hl).
    lia.
Qed.

(** ** The claims *)

(** C1. [should_server_cheat]: with [future_credits] the sum of its two
    arguments, below 40 it returns [False] and leaves the generator as it was;
    from 40 to 60 it consumes one draw [r] of [random.random()] and returns
    [r < 0.3]; above 60 it consumes one draw [r] and returns [r < 0.6]. *)
Theorem should_server_cheat_thresholds
    (current_credits potential_win_credits : Z) (g : Random) :
  0 <= current_credits -> 0 <= potential_win_credits ->
  let future_credits := current_credits + potential_win_credits in
  (future_credits < 40 ->
     should_server_cheat current_credits potential_win_credits g = (Ok false, g)) /\
  (40 <= future_credits <= 60 ->
     should_server_cheat current_credits potential_win_credits g
     = (Ok (PrimFloat.ltb (next_uniform g) 0.3%float), consume_uniform g)) /\
  (60 < future_credits ->
     should_server_cheat current_credits potential_win_credits g
     = (Ok (PrimFloat.ltb (next_uniform g) 0.6%float), consume_uniform g)).
Proof.
  intros _ _ future_credits. unfold should_server_cheat. fold future_credits.
  repeat split; intros H.
  - destruct (Z.ltb_spec future_credits 40); [reflexivity|lia].
  - destruct (Z.ltb_spec future_credits 40); [lia|].
    destruct (Z.leb_spec 40 future_credits); [|lia].
    destruct (Z.leb_spec future_credits 60); [reflexivity|lia].
  - destruct (Z.ltb_spec future_credits 40); [lia|].
    destruct (Z.leb_spec 40 future_credits); [|lia].
    destruct (Z.leb_spec future_credits 60); [lia|reflexivity].
Qed.

Lemma should_server_cheat_thresholds_witness :
  should_server_cheat 30 5 (lucky_rng 0.7%float) = (Ok false, lucky_rng 0.7%float) /\
  fst (should_server_cheat 35 10 (lucky_rng 0.2%float)) = Ok true /\
  fst (should_server_cheat 35 10 (lucky_rng 0.4%float)) = Ok false /\
  fst (should_server_cheat 55 10 (lucky_rng 0.5%float)) = Ok true /\
  fst (should_server_cheat 55 10 (lucky_rng 0.7%float)) = Ok false.
Proof.
  split; [|split; [|split; [|split]]].
  - apply (should_server_cheat_thresholds 30 5 (lucky_rng 0.7%float)); lia.
  - rewrite (proj1 (proj2 (should_server_cheat_thresholds 35 10 (lucky_rng 0.2%float)
                             ltac:(lia) ltac:(lia)))) by (cbv zeta; lia).
    reflexivity.
  - rewrite (proj1 (proj2 (should_server_cheat_thresholds 35 10 (lucky_rng 0.4%float)
                             ltac:(lia) ltac:(lia)))) by (cbv zeta; lia).
    reflexivity.
  - rewrite (proj2 (proj2 (should_server_cheat_thresholds 55 10 (lucky_rng 0.5%float)
                             ltac:(lia) ltac:(lia)))) by (cbv zeta; lia).
    reflexivity.
  - rewrite (proj2 (proj2 (should_server_cheat_thresholds 55 10 (lucky_rng 0.7%float)
                             ltac:(lia) ltac:(lia)))) by (cbv zeta; lia).
    reflexivity.
Defined.

(** C2. A successful [roll_slots] (an active session with at least one
    credit, answered with a roll) has written the deduction once, the
    addition at most once (exactly when the final roll wins), and one roll
    record, whose [credits_after] is [credits_before - 1 + credits_won]; the
    answer carries that record's fields.  A play does succeed whenever the
    stored row fits its columns and leaves room for the largest reward. *)
Theorem roll_slots_credit_conservation w sid now s :
  sessions (db w) !! sid = Some s -> is_active s = true -> 1 <= credits s ->
  (row_fits s = true -> credits s + 39 <= INTEGER_MAX ->
   exists shown glyphs winning won total rerolled,
     fst (roll_slots sid now w)
     = Ok (RollResponse shown glyphs winning won total rerolled)) /\
  forall shown glyphs winning won total rerolled w',
    roll_slots sid now w
    = (Ok (RollResponse shown glyphs winning won total rerolled), w') ->
    exists roll g',
      w' = {| db := {| sessions := <[session_id s := set_credits (credits_after roll) s]>
                                     (sessions (db w));
                       rolls := rolls (db w) ++ [roll];
                       journal := journal (db w)
                         ++ SaveSession (set_credits (credits s - 1) s)
                         :: (if was_winning_roll roll
                             then [SaveSession
                                     (set_credits (credits s - 1 + credits_won roll) s)]
                             else [])
                         ++ [InsertRoll roll] |};
              rng := g' |} /\
      symbols roll = shown /\ was_winning_roll roll = winning /\
      credits_won roll = won /\ credits_after roll = total /\
      was_rerolled roll = rerolled /\
      session roll = session_id s /\
      credits_before roll = credits s /\
      credits_after roll = credits_before roll - 1 + credits_won roll.
Proof.
  intros Hl Ha Hc. split.
  - intros Hf Hmax.
    destruct (roll_slots_in_range w sid now s Hl Ha Hc Hf Hmax)
      as (roll & display & g' & -> & _).
    cbn [fst]. eauto 10.
  - intros shown glyphs winning won total rerolled w' E.
    destruct (roll_slots_cases w sid now s Hl Ha Hc)
      as [(_ & E')|[(_ & _ & g' & u & b & E' & _)
                   |(roll & display' & g' & u & b & E' & Hroll & _)]];
      rewrite E' in E; try discriminate.
    injection E as <- <- <- <- <- <- <-.
    destruct Hroll as (Hs & Hb & Hafter & _).
    exists roll, g'. rewrite Hb, <- Hafter. repeat split; assumption.
Qed.

Lemma roll_slots_credit_conservation_witness :
  sessions (db fresh_world) !! 7%N = Some fresh_session /\
  (exists shown glyphs winning won total rerolled,
     fst (roll_slots 7 101 fresh_world)
     = Ok (RollResponse shown glyphs winning won total rerolled)) /\
  exists roll g',
    snd (roll_slots 7 101 fresh_world)
    = {| db := {| sessions := <[7%N := set_credits (credits_after roll) fresh_session]>
                                (sessions (db fresh_world));
                  rolls := rolls (db fresh_world) ++ [roll];
                  journal := journal (db fresh_world)
                    ++ SaveSession (set_credits 9 fresh_session)
                    :: (if was_winning_roll roll
                        then [SaveSession
                                (set_credits (10 - 1 + credits_won roll) fresh_session)]
                        else [])
                    ++ [InsertRoll roll] |};
           rng := g' |} /\
    credits_before roll = 10 /\
    credits_after roll = credits_before roll - 1 + credits_won roll.
Proof.
  assert (Hl : sessions (db fresh_world) !! 7%N = Some fresh_session) by reflexivity.
  destruct (roll_slots_credit_conservation fresh_world 7 101 fresh_session Hl
              eq_refl ltac:(cbn; lia)) as [Hok Hall].
  split; [exact Hl|]. split; [apply Hok; [reflexivity|vm_compute; discriminate]|].
  destruct (Hall ["cherry"; "cherry"; "cherry"] ["C"; "C"; "C"] true 10 19 false
              (snd (roll_slots 7 101 fresh_world)) ltac:(vm_compute; reflexivity))
    as (roll & g' & E & _ & _ & _ & _ & _ & _ & Hb & Hafter).
  exists roll, g'. split; [exact E|]. split; [exact Hb|exact Hafter].
Defined.

(** C3. In a state reached by the four API operations, a session whose
    [is_active] is false holds no credits; after any further sequence of
    requests its row is still the same (so its credits are still 0), and both
    [roll_slots] and [cash_out] on its identifier fail. *)
Theorem closed_session_is_final w sid s rs :
  reachable w -> sessions (db w) !! sid = Some s -> is_active s = false ->
  let w' := run rs w in
  credits s = 0 /\
  sessions (db w') !! sid = Some s /\
  (forall now, roll_slots sid now w' = (Ok SessionNotFoundOrInactive, w')) /\
  views.cash_out sid w' = (Ok SessionNotFoundOrInactive, w').
Proof.
  intros Hw Hl Hclosed w'.
  assert (Hl' : sessions (db w') !! sid = Some s).
  { subst w'. revert w Hw Hl. induction rs as [|r rs IH]; intros w Hw Hl; [exact Hl|].
    cbn [run foldl]. apply IH; [now constructor|].
    destruct (reachable_invariants w Hw) as (_ & Hk & _).
    eapply closed_session_frozen; eauto using step_session_update. }
  destruct (reachable_invariants w Hw) as (_ & _ & Hc).
  split; [eapply Hc; eassumption|]. split; [exact Hl'|]. split.
  - intros now. apply roll_slots_missing. right. eauto.
  - apply cash_out_missing. right. eauto.
Qed.

Lemma closed_session_is_final_witness :
  let s := {| session_id := 7; credits := 0; account_credits := 19;
              created_at := 100; is_active := false |} in
  let w' := run [PlayRoll 7 102; CashOut 7; GetStatus 7; CreateSession 7 103;
                 CreateSession 8 104; PlayRoll 8 105] closed_world in
  reachable closed_world /\
  sessions (db closed_world) !! 7%N = Some s /\
  credits s = 0 /\
  sessions (db w') !! 7%N = Some s /\
  (forall now, roll_slots 7 now w' = (Ok SessionNotFoundOrInactive, w')) /\
  views.cash_out 7 w' = (Ok SessionNotFoundOrInactive, w').
Proof.
  intros s w'.
  assert (Hr : reachable closed_world)
    by (unfold closed_world; repeat apply reachable_step; apply reachable_initial).
  split; [exact Hr|]. split; [reflexivity|].
  apply (closed_session_is_final closed_world 7 s _ Hr); reflexivity.
Defined.

(** C4. Whatever the generator draws, [generate_losing_roll] returns three
    symbols of the catalog that [check_winning_combination] rejects. *)
Theorem generate_losing_roll_never_wins (g : Random) :
  exists symbols g',
    generate_losing_roll g = (Ok symbols, g') /\
    length symbols = 3%nat /\
    Forall (fun x => x ∈ SYMBOL_NAMES) symbols /\
    check_winning_combination symbols = false.
Proof.
  destruct (generate_losing_roll_ok g) as (a & b & c & g' & E & Ha & Hb & Hc & Hne & _).
  exists [a; b; c], g'. split; [exact E|]. split; [reflexivity|]. split.
  - repeat (apply Forall_cons_2; [assumption|]). apply Forall_nil_2.
  - destruct (check_winning_combination [a; b; c]) eqn:Hw; [|reflexivity].
    apply check_winning_three in Hw. contradiction.
Qed.




(** C6. [roll_slots] on an active session with fewer than one credit
    answers "Not enough credits" and changes nothing: the session row, the
    rolls and the generator are as before. *)
Theorem roll_slots_insufficient_credits w sid now s :
  sessions (db w) !! sid = Some s -> is_active s = true -> credits s < 1 ->
  exists w',
    roll_slots sid now w = (Ok InsufficientCredits, w') /\
    sessions (db w') !! sid = Some s /\
    rolls (db w') = rolls (db w) /\
    w' = w.
Proof.
  intros Hl Ha Hc. exists w.
  split; [eapply roll_slots_broke; eassumption|]. auto.
Qed.

Lemma roll_slots_insufficient_credits_witness :
  let s := {| session_id := 7; credits := 0; account_credits := 0;
              created_at := 100; is_active := true |} in
  sessions (db broke_world) !! 7%N = Some s /\
  exists w',
    roll_slots 7 102 broke_world = (Ok InsufficientCredits, w') /\
    sessions (db w') !! 7%N = Some s /\
    rolls (db w') = rolls (db broke_world) /\
    w' = broke_world.
Proof.
  intros s. split; [vm_compute; reflexivity|].
  apply (roll_slots_insufficient_credits broke_world 7 102 s);
    [vm_compute; reflexivity | reflexivity | cbn; lia].
Defined.

(** C7. Once [cash_out] has succeeded on a session, the session is closed
    with the total as its account credits, and a second [cash_out] on the
    same identifier fails with the answer an unknown identifier gets, leaving
    the state (the account credits with it) as the first call made it. *)
Theorem cash_out_again_fails w sid s total message w1 :
  sessions (db w) !! sid = Some s -> session_id s = sid -> is_active s = true ->
  views.cash_out sid w = (Ok (CashOutResponse true total message), w1) ->
  exists s1,
    sessions (db w1) !! sid = Some s1 /\
    is_active s1 = false /\
    account_credits s1 = account_credits s + credits s /\
    account_credits s1 = total /\
    views.cash_out sid w1 = (Ok SessionNotFoundOrInactive, w1) /\
    sessions (db (snd (views.cash_out sid w1))) !! sid = Some s1 /\
    forall unknown,
      sessions (db w1) !! unknown = None ->
      views.cash_out unknown w1 = (Ok SessionNotFoundOrInactive, w1).
Proof.
  intros Hl Hid Ha E.
  destruct (fits_column (account_credits s + credits s)) eqn:Hf.
  2:{ rewrite (cash_out_overflow w sid s Hl Ha Hf) in E. discriminate. }
  pose proof (cash_out_done w sid s Hl Ha Hf) as E'. rewrite E in E'.
  injection E' as Htotal _ Hw1.
  assert (Hl1 : sessions (db w1) !! sid = Some (cashed_out s)).
  { rewrite Hw1. cbn. rewrite Hid. apply lookup_insert_eq. }
  assert (E2 : views.cash_out sid w1 = (Ok SessionNotFoundOrInactive, w1)).
  { apply cash_out_missing. right. eauto. }
  exists (cashed_out s). split; [exact Hl1|]. split; [reflexivity|].
  split; [reflexivity|]. split; [symmetry; exact Htotal|]. split; [exact E2|].
  split; [now rewrite E2|].
  intros unknown Hu. apply cash_out_missing. now left.
Qed.

Lemma cash_out_again_fails_witness :
  sessions (db fresh_world) !! 7%N = Some fresh_session /\
  views.cash_out 7 fresh_world
  = (Ok (CashOutResponse true 10 "Successfully cashed out 10 credits!"),
     snd (views.cash_out 7 fresh_world)) /\
  exists s1,
    sessions (db (snd (views.cash_out 7 fresh_world))) !! 7%N = Some s1 /\
    is_active s1 = false /\
    account_credits s1 = account_credits fresh_session + credits fresh_session /\
    account_credits s1 = 10 /\
    views.cash_out 7 (snd (views.cash_out 7 fresh_world))
    = (Ok SessionNotFoundOrInactive, snd (views.cash_out 7 fresh_world)) /\
    sessions (db (snd (views.cash_out 7 (snd (views.cash_out 7 fresh_world))))) !! 7%N
    = Some s1 /\
    forall unknown,
      sessions (db (snd (views.cash_out 7 fresh_world))) !! unknown = None ->
      views.cash_out unknown (snd (views.cash_out 7 fresh_world))
      = (Ok SessionNotFoundOrInactive, snd (views.cash_out 7 fresh_world)).
Proof.
  split; [reflexivity|]. split; [reflexivity|].
  apply (cash_out_again_fails fresh_world 7 fresh_session 10
           "Successfully cashed out 10 credits!"); reflexivity.
Defined.

(** C8. In every state reached by the four API operations each session has
    [credits >= 0] and [account_credits >= 0], and every further request
    keeps it so. *)
Theorem balances_never_negative w :
  reachable w ->
  nonnegative (sessions (db w)) /\
  forall r, nonnegative (sessions (db (step r w))).
Proof.
  intros Hw. destruct (reachable_invariants w Hw) as (Hn & _).
  split; [exact Hn|]. intros r.
  eapply nonnegative_update; [apply step_session_update|exact Hn].
Qed.

Lemma balances_never_negative_witness :
  reachable broke_world /\
  nonnegative (sessions (db broke_world)) /\
  forall r, nonnegative (sessions (db (step r broke_world))).
Proof.
  assert (Hr : reachable broke_world)
    by (apply reachable_run, reachable_initial).
  split; [exact Hr|]. apply (balances_never_negative broke_world Hr).
Defined.

(** C9. When the first roll of a play wins, [should_server_cheat] runs on
    the balance after the deduction ([credits_before - 1]) and the reward of
    the rolled symbol, right after the roll's draws: the generator ends where
    that call (and the losing re-roll, when it asks for one) leaves it, and
    whenever the play is answered with a roll, the answer's [was_rerolled] is
    the engine's verdict and its total is the balance the engine weighed. *)
Theorem fairness_engine_sees_balance_after_deduction
    w sid now s symbols0 g1 first info :
  sessions (db w) !! sid = Some s -> is_active s = true -> 1 <= credits s ->
  row_fits s = true ->
  generate_roll (rng w) = (Ok symbols0, g1) ->
  check_winning_combination symbols0 = true ->
  symbols0 !! 0%nat = Some first ->
  dict_get SYMBOLS first = Some info ->
  exists suppress g2,
    should_server_cheat (credits s - 1) (reward info) g1 = (Ok suppress, g2) /\
    rng (snd (roll_slots sid now w))
    = (if suppress then snd (generate_losing_roll g2) else g2) /\
    (forall shown glyphs winning won total rerolled,
       fst (roll_slots sid now w)
       = Ok (RollResponse shown glyphs winning won total rerolled) ->
       rerolled = suppress /\ winning = negb suppress /\
       won = (if suppress then 0 else reward info) /\
       total = (if suppress then credits s - 1 else credits s - 1 + reward info)) /\
    (credits s + 39 <= INTEGER_MAX ->
     exists shown glyphs winning won total,
       fst (roll_slots sid now w)
       = Ok (RollResponse shown glyphs winning won total suppress)).
Proof.
  intros Hl Ha Hc Hf Eroll Hwin Hfirst Hinfo.
  pose proof (deducted_fits s Hf Hc) as Hd.
  destruct (roll_slots_effect w sid now s Hl Ha Hc Hd)
    as (symbols0' & g1' & roll & display & g' & Eroll' & E & Hroll & _ & _ & Hwon & _).
  rewrite Eroll in Eroll'. injection Eroll' as <- <-.
  destruct (Hwon Hwin) as (first' & info' & suppress & g2 & Hfirst' & Hinfo' & Echeat
                           & Hre & Hw & Hcw & Hrng).
  rewrite Hfirst in Hfirst'. injection Hfirst' as <-.
  rewrite Hinfo in Hinfo'. injection Hinfo' as <-.
  destruct Hroll as (_ & _ & Hafter & _).
  assert (Hg : g' = (if suppress then snd (generate_losing_roll g2) else g2)).
  { destruct suppress; [now rewrite Hrng | apply Hrng]. }
  assert (Hfc : fits_column (credits s) = true) by (now apply row_fits_spec in Hf).
  exists suppress, g2. split; [exact Echeat|].
  rewrite Hfc in E. cbn [andb] in E.
  destruct (fits_column (credits_after roll)) eqn:Hfr; rewrite E; cbn [fst snd rng].
  - split; [exact Hg|]. split.
    + intros shown glyphs winning won total rerolled [= <- <- <- <- <- <-].
      rewrite Hafter, Hcw. repeat split; try assumption. destruct suppress; lia.
    + intros _. rewrite Hre. eauto 10.
  - split; [exact Hg|]. split; [discriminate|].
    intros Hmax. exfalso.
    apply fits_column_false in Hfr. rewrite Hafter, Hcw in Hfr.
    pose proof (reward_range _ _ Hinfo).
    unfold INTEGER_MIN, INTEGER_MAX in *. destruct suppress; lia.
Qed.

Lemma fairness_engine_sees_balance_after_deduction_witness :
  let s := {| session_id := 7; credits := 30; account_credits := 0;
              created_at := 100; is_active := true |} in
  let info := {| letter := "C"; reward := 10 |} in
  let g1 := snd (generate_roll (rng threshold_world)) in
  sessions (db threshold_world) !! 7%N = Some s /\
  generate_roll (rng threshold_world) = (Ok ["cherry"; "cherry"; "cherry"], g1) /\
  should_server_cheat 29 10 g1 = (Ok false, g1) /\
  exists suppress g2,
    should_server_cheat (credits s - 1) (reward info) g1 = (Ok suppress, g2) /\
    rng (snd (roll_slots 7 102 threshold_world))
    = (if suppress then snd (generate_losing_roll g2) else g2) /\
    (forall shown glyphs winning won total rerolled,
       fst (roll_slots 7 102 threshold_world)
       = Ok (RollResponse shown glyphs winning won total rerolled) ->
       rerolled = suppress /\ winning = negb suppress /\
       won = (if suppress then 0 else reward info) /\
       total = (if suppress then credits s - 1 else credits s - 1 + reward info)) /\
    (credits s + 39 <= INTEGER_MAX ->
     exists shown glyphs winning won total,
       fst (roll_slots 7 102 threshold_world)
       = Ok (RollResponse shown glyphs winning won total suppress)).
Proof.
  intros s info g1.
  split; [vm_compute; reflexivity|].
  split; [vm_compute; reflexivity|].
  split; [reflexivity|].
  apply (fairness_engine_sees_balance_after_deduction
           threshold_world 7 102 s ["cherry"; "cherry"; "cherry"] g1 "cherry" info);
    [vm_compute; reflexivity | reflexivity | cbn; lia | reflexivity
    | vm_compute; reflexivity | vm_compute; reflexivity | reflexivity | reflexivity].
Defined.




(** ** The specification's scenarios, run *)

(** A fresh session, three cherries, no suppression: ten credits won, 19 in
    total. *)
Example scenario_winning_roll :
  fst (dispatch (PlayRoll 7 101) fresh_world)
  = Ok (RollResponse ["cherry"; "cherry"; "cherry"] ["C"; "C"; "C"] true 10 19 false).
Proof. vm_compute. reflexivity. Qed.

(** With 30 credits a win of 10 is weighed at 29 + 10 = 39: the engine does
    not draw, although every draw of this generator would suppress. *)
Example scenario_threshold :
  fst (dispatch (PlayRoll 7 102) threshold_world)
  = Ok (RollResponse ["cherry"; "cherry"; "cherry"] ["C"; "C"; "C"] true 10 39 false)
  /\ uniform_used (rng (step (PlayRoll 7 102) threshold_world)) = 0%nat
  /\ fst (should_server_cheat 30 10 (rng threshold_world)) = Ok true.
Proof. vm_compute. auto. Qed.

(** A session with 25 credits cashes out 25. *)
Example scenario_cash_out :
  let s := {| session_id := 7; credits := 25; account_credits := 0;
              created_at := 100; is_active := true |} in
  let w := {| db := {| sessions := {[ 7%N := s ]}; rolls := []; journal := [] |};
              rng := cycling_rng |} in
  fst (dispatch (CashOut 7) w)
  = Ok (CashOutResponse true 25 "Successfully cashed out 25 credits!")
  /\ fst (dispatch (GetStatus 7) (step (CashOut 7) w))
     = Ok (SessionStatusResponse 7 0 25 false false)
  /\ fst (dispatch (CashOut 7) (step (CashOut 7) w)) = Ok SessionNotFoundOrInactive.
Proof. vm_compute. auto. Qed.

(** The status lookup is the one that still answers for a closed session, and
    an identifier that is taken cannot be created again. *)
Example scenario_closed_session :
  fst (dispatch (GetStatus 7) closed_world)
  = Ok (SessionStatusResponse 7 0 19 false false)
  /\ fst (dispatch (PlayRoll 7 102) closed_world) = Ok SessionNotFoundOrInactive
  /\ fst (dispatch (CreateSession 7 103) closed_world)
     = Raise (IntegrityError "UNIQUE constraint failed: game_gamesession.session_id").
Proof. vm_compute. auto. Qed.


(** A winning, unsuppressed play at the top of the column: the addition does
    not fit, the handler answers 500, the deduction stays, no roll is stored,
    and the draws (three symbols, one uniform) are spent. *)
Example scenario_overflow :
  fst (dispatch (PlayRoll 7 101) full_world) = Ok OverflowFailure
  /\ sessions (db (step (PlayRoll 7 101) full_world)) !! 7%N
     = Some (set_credits (INTEGER_MAX - 1) full_session)
  /\ rolls (db (step (PlayRoll 7 101) full_world)) = []
  /\ uniform_used (rng (step (PlayRoll 7 101) full_world)) = 1%nat
  /\ below_used (rng (step (PlayRoll 7 101) full_world)) = 3%nat.
Proof. vm_compute. auto. Qed.

(** * Further properties of the code *)

(** ** The helpers of game/views.py *)

(** X1. [check_winning_combination] accepts a list exactly when it is not
    empty and all its entries are the same symbol, whatever its length: the
    empty list is rejected, a single symbol is accepted. *)
Theorem check_winning_combination_iff (symbols : list string) :
  check_winning_combination symbols = true <->
  exists x, x ∈ symbols /\ forall y, y ∈ symbols -> y = x.
Proof.
  unfold check_winning_combination. rewrite bool_decide_eq_true. split.
  - intros H. apply size_1_elem_of in H as [x Hx]. exists x. split.
    + apply (elem_of_list_to_set (C := gset string)). rewrite Hx.
      now apply elem_of_singleton.
    + intros y Hy. apply (elem_of_list_to_set (C := gset string)) in Hy.
      rewrite Hx in Hy. now apply elem_of_singleton in Hy.
  - intros (x & Hx & Hall).
    replace (list_to_set symbols : gset string) with ({[x]} : gset string).
    + apply size_singleton.
    + apply set_eq. intros y. rewrite elem_of_singleton, elem_of_list_to_set.
      split; [now intros -> | apply Hall].
Qed.


(** X2. [generate_roll] never raises: it returns three symbols of the
    catalog, after exactly three draws of [random.choice] and none of
    [random.random]. *)
Theorem generate_roll_three_catalog_symbols (g : Random) :
  exists a b c,
    generate_roll g
    = (Ok [a; b; c], consume_below (consume_below (consume_below g))) /\
    a ∈ SYMBOL_NAMES /\ b ∈ SYMBOL_NAMES /\ c ∈ SYMBOL_NAMES /\
    uniform_used (consume_below (consume_below (consume_below g))) = uniform_used g /\
    below_used (consume_below (consume_below (consume_below g)))
    = (below_used g + 3)%nat.
Proof.
  destruct (generate_roll_ok g) as (a & b & c & Ha & Hb & Hc & E).
  exists a, b, c. repeat split; try assumption. cbn. lia.
Qed.

(** X3. Every combination of three catalog symbols, the winning ones
    included, is the result of [generate_roll] for some generator state. *)
Theorem generate_roll_reaches_every_combination (a b c : string) :
  a ∈ SYMBOL_NAMES -> b ∈ SYMBOL_NAMES -> c ∈ SYMBOL_NAMES ->
  exists g, fst (generate_roll g) = Ok [a; b; c].
Proof.
  intros Ha Hb Hc.
  apply list_elem_of_lookup_1 in Ha as [i Hi].
  apply list_elem_of_lookup_1 in Hb as [j Hj].
  apply list_elem_of_lookup_1 in Hc as [k Hk].
  pose proof (lookup_lt_Some _ _ _ Hi) as Li.
  pose proof (lookup_lt_Some _ _ _ Hj) as Lj.
  pose proof (lookup_lt_Some _ _ _ Hk) as Lk.
  exists {| uniform := fun _ => 0%float; uniform_used := 0;
            below := fun n => nth n [i; j; k] 0%nat; below_used := 0 |}.
  unfold generate_roll. cbn [repeatM]. unfold bind, ret.
  erewrite random_choice_lookup
    by (cbn [below below_used nth]; rewrite Nat.mod_small; eassumption).
  cbn beta iota.
  erewrite random_choice_lookup
    by (cbn [below below_used nth consume_below]; rewrite Nat.mod_small; eassumption).
  cbn beta iota.
  erewrite random_choice_lookup
    by (cbn [below below_used nth consume_below]; rewrite Nat.mod_small; eassumption).
  reflexivity.
Qed.

Lemma generate_roll_reaches_every_combination_witness :
  "watermelon" ∈ SYMBOL_NAMES /\ "cherry" ∈ SYMBOL_NAMES /\
  exists g, fst (generate_roll g) = Ok ["watermelon"; "cherry"; "watermelon"].
Proof.
  assert (Hw : "watermelon" ∈ SYMBOL_NAMES) by (apply list_elem_of_In; cbn; tauto).
  assert (Hc : "cherry" ∈ SYMBOL_NAMES) by (apply list_elem_of_In; cbn; tauto).
  split; [exact Hw|]. split; [exact Hc|].
  apply (generate_roll_reaches_every_combination _ _ _ Hw Hc Hw).
Defined.



(** X4. [generate_losing_roll] starts like [generate_roll]: when those three
    draws do not win it returns them and draws no more; when they win it
    keeps the first two slots, draws once more and puts a catalog symbol
    other than the first slot's into the third. *)
Theorem generate_losing_roll_redraws_third_slot (g : Random) :
  exists a b c g3,
    generate_roll g = (Ok [a; b; c], g3) /\
    if check_winning_combination [a; b; c]
    then exists x,
           generate_losing_roll g = (Ok [a; b; x], consume_below g3) /\
           x ∈ SYMBOL_NAMES /\ x <> a
    else generate_losing_roll g = (Ok [a; b; c], g3).
Proof.
  destruct (generate_losing_roll_cases g) as (a & b & c & g3 & E & H).
  exists a, b, c, g3. split; [exact E|].
  destruct (check_winning_combination [a; b; c]); [|exact H].
  destruct H as (x & H). now exists x.
Qed.

(** ** The ledger and its audit trail, in reachable states *)

(** X5. The roll a successful play records and answers with agrees with
    its symbols: whenever [roll_slots] answers with a roll, the stored record
    carries the answer's fields, shows three catalog symbols, has
    [was_winning_roll] as [check_winning_combination] says of them and
    [credits_won] the catalog's reward for the symbol on a win and 0
    otherwise (so 0, 10, 20, 30 or 40), and a re-rolled play neither wins nor
    pays. *)
Theorem roll_slots_record_agrees_with_symbols
    w sid now s shown glyphs winning won total rerolled w' :
  sessions (db w) !! sid = Some s -> is_active s = true -> 1 <= credits s ->
  roll_slots sid now w
  = (Ok (RollResponse shown glyphs winning won total rerolled), w') ->
  rolls (db w')
  = rolls (db w)
    ++ [{| session := session_id s; symbols := shown; credits_before := credits s;
           credits_after := total; credits_won := won; was_winning_roll := winning;
           was_rerolled := rerolled; roll_created_at := now |}] /\
  length shown = 3%nat /\
  Forall (fun x => x ∈ SYMBOL_NAMES) shown /\
  winning = check_winning_combination shown /\
  won = (if winning then reward_of shown else 0) /\
  In won [0; 10; 20; 30; 40] /\
  (rerolled = true -> winning = false /\ won = 0).
Proof.
  intros Hl Ha Hc E.
  destruct (roll_slots_cases w sid now s Hl Ha Hc)
    as [(_ & E')|[(_ & _ & g' & u & b & E' & _)
                 |(roll & display & g' & u & b & E' & Hroll & Hnow & _)]];
    rewrite E' in E; try discriminate.
  injection E as <- <- <- <- <- <- <-.
  destruct Hroll as (Hs & Hb & _ & Hlen & Hcat & Hwin & Hwon & Hre).
  cbn [db rolls]. split.
  { f_equal. destruct roll; cbn in *. subst. reflexivity. }
  do 4 (split; [assumption|]). split.
  - rewrite Hwon. destruct (was_winning_roll roll); [|now left].
    destruct (symbols roll) as [|x rest]; [discriminate|].
    right. apply reward_of_catalog. now apply Forall_cons_1 in Hcat as [Hx _].
  - intros Hr. split; [auto|]. rewrite Hwon, (Hre Hr). reflexivity.
Qed.

Lemma roll_slots_record_agrees_with_symbols_witness :
  sessions (db fresh_world) !! 7%N = Some fresh_session /\
  roll_slots 7 101 fresh_world
  = (Ok (RollResponse ["cherry"; "cherry"; "cherry"] ["C"; "C"; "C"] true 10 19 false),
     snd (roll_slots 7 101 fresh_world)) /\
  rolls (db (snd (roll_slots 7 101 fresh_world)))
  = rolls (db fresh_world)
    ++ [{| session := 7; symbols := ["cherry"; "cherry"; "cherry"];
           credits_before := 10; credits_after := 19; credits_won := 10;
           was_winning_roll := true; was_rerolled := false;
           roll_created_at := 101 |}] /\
  true = check_winning_combination ["cherry"; "cherry"; "cherry"] /\
  10 = reward_of ["cherry"; "cherry"; "cherry"].
Proof.
  assert (Hl : sessions (db fresh_world) !! 7%N = Some fresh_session) by reflexivity.
  assert (E : roll_slots 7 101 fresh_world
              = (Ok (RollResponse ["cherry"; "cherry"; "cherry"] ["C"; "C"; "C"]
                       true 10 19 false),
                 snd (roll_slots 7 101 fresh_world))) by (vm_compute; reflexivity).
  destruct (roll_slots_record_agrees_with_symbols fresh_world 7 101 fresh_session
              _ _ _ _ _ _ _ Hl eq_refl ltac:(cbn; lia) E)
    as (Hrolls & _ & _ & Hwin & Hwon & _).
  split; [exact Hl|]. split; [exact E|]. split; [exact Hrolls|].
  split; [exact Hwin|exact Hwon].
Defined.

(** X6. In every reachable state each stored roll agrees with itself (as in
    X5, with [credits_before >= 1] and
    [credits_after = credits_before - 1 + credits_won]) and belongs to a
    stored session. *)
Theorem audit_log_is_sound w :
  reachable w ->
  Forall roll_sound (rolls (db w)) /\
  forall r, r ∈ rolls (db w) -> is_Some (sessions (db w) !! session r).
Proof.
  intros Hw. destruct (reachable_ledger_kept w Hw). now split.
Qed.

Lemma audit_log_is_sound_witness :
  reachable broke_world /\
  Forall roll_sound (rolls (db broke_world)) /\
  forall r, r ∈ rolls (db broke_world) ->
            is_Some (sessions (db broke_world) !! session r).
Proof.
  assert (Hr : reachable broke_world) by (apply reachable_run, reachable_initial).
  split; [exact Hr|]. apply (audit_log_is_sound broke_world Hr).
Defined.

(** X7. As long as the requests served are too few for a balance to reach
    the integer column's bound (each adds at most 39 credits to the initial
    10), a session's credits and account credits add up to the initial 10
    plus what its recorded rolls won, less one per roll; an active session
    has no account credits and a closed one no credits. *)
Theorem ledger_conserves_credits n w sid s :
  reachable_in n w -> 10 + 39 * Z.of_nat n <= INTEGER_MAX ->
  sessions (db w) !! sid = Some s ->
  credits s + account_credits s = 10 + net_winnings sid (rolls (db w)) /\
  (if is_active s then account_credits s = 0 else credits s = 0).
Proof.
  intros Hw Hn Hl.
  destruct (reachable_in_exact n w Hw Hn) as [[Hcons _] _].
  destruct (reachable_ledger_kept w (reachable_in_reachable _ _ Hw))
    as [_ _ Hacc Hclosed _ _].
  split; [eauto|]. destruct (is_active s) eqn:Ha; eauto.
Qed.

Lemma ledger_conserves_credits_witness :
  reachable_in 3 closed_world /\
  10 + 39 * Z.of_nat 3 <= INTEGER_MAX /\
  sessions (db closed_world) !! 7%N = Some closed_session /\
  credits closed_session + account_credits closed_session
  = 10 + net_winnings 7 (rolls (db closed_world)) /\
  (if is_active closed_session then account_credits closed_session = 0
   else credits closed_session = 0).
Proof.
  assert (Hr : reachable_in 3 closed_world)
    by (unfold closed_world; repeat apply reachable_in_step; apply reachable_in_initial).
  assert (Hn : 10 + 39 * Z.of_nat 3 <= INTEGER_MAX) by (vm_compute; discriminate).
  split; [exact Hr|]. split; [exact Hn|]. split; [reflexivity|].
  apply (ledger_conserves_credits 3 closed_world 7 closed_session Hr Hn). reflexivity.
Defined.

(** X8. Under the same bound on the number of requests served, each roll's
    [credits_before] is the initial 10 plus the net result of the earlier
    rolls of its session: the log of rolls replays to the balances it
    records. *)
Theorem audit_trail_is_continuous n w before r after :
  reachable_in n w -> 10 + 39 * Z.of_nat n <= INTEGER_MAX ->
  rolls (db w) = before ++ r :: after ->
  credits_before r = 10 + net_winnings (session r) before.
Proof.
  intros Hw Hn E. destruct (reachable_in_exact n w Hw Hn) as [[_ Hcont] _]. eauto.
Qed.

Lemma audit_trail_is_continuous_witness :
  reachable_in 3 two_wins_world /\
  10 + 39 * Z.of_nat 3 <= INTEGER_MAX /\
  rolls (db two_wins_world) = [first_win] ++ second_win :: [] /\
  credits_before second_win = 10 + net_winnings (session second_win) [first_win].
Proof.
  assert (Hr : reachable_in 3 two_wins_world)
    by (unfold two_wins_world, run; cbn [foldl];
        repeat apply reachable_in_step; apply reachable_in_initial).
  assert (Hn : 10 + 39 * Z.of_nat 3 <= INTEGER_MAX) by (vm_compute; discriminate).
  split; [exact Hr|]. split; [exact Hn|]. split; [reflexivity|].
  apply (audit_trail_is_continuous 3 two_wins_world [first_win] second_win [] Hr Hn).
  reflexivity.
Defined.

(** X9. In a reachable state [cash_out] on an active session answers with
    exactly the session's credits, in [total_account_credits] and in the
    message: an open session has nothing in its account yet. *)
Theorem cash_out_pays_the_credits w sid s :
  reachable w -> sessions (db w) !! sid = Some s -> is_active s = true ->
  fst (views.cash_out sid w)
  = Ok (CashOutResponse true (credits s)
          ("Successfully cashed out " +:+ pretty (credits s) +:+ " credits!")).
Proof.
  intros Hw Hl Ha. destruct (reachable_ledger_kept w Hw) as [_ _ Hacc _ Hrows _].
  destruct (Hrows _ _ Hl) as (_ & _ & Hf). apply row_fits_spec in Hf as [Hf _].
  rewrite (cash_out_done w sid s Hl Ha); rewrite (Hacc _ _ Hl Ha), ?Z.add_0_l;
    [|exact Hf].
  reflexivity.
Qed.

Lemma cash_out_pays_the_credits_witness :
  reachable two_wins_world /\
  sessions (db two_wins_world) !! 7%N = Some two_wins_session /\
  fst (views.cash_out 7 two_wins_world)
  = Ok (CashOutResponse true 28 "Successfully cashed out 28 credits!").
Proof.
  assert (Hr : reachable two_wins_world) by (apply reachable_run, reachable_initial).
  split; [exact Hr|]. split; [reflexivity|].
  apply (cash_out_pays_the_credits two_wins_world 7 two_wins_session Hr); reflexivity.
Defined.

(** ** What requests never do *)

Lemma db_change_appends d d' :
  db_change d d' ->
  rolls d `prefix_of` rolls d' /\ journal d `prefix_of` journal d' /\
  (length (rolls d') <= length (rolls d) + 1)%nat.
Proof.
  intros [d1 [|uuid now Hfresh|sid s roll Hl Ha Hc Hroll Hf|sid s Hl Ha Hf]
         |sid s Hl Ha Hc Hd Hmax]; cbn [rolls journal];
    repeat split; try reflexivity; try (eexists; reflexivity); try lia.
  rewrite length_app. cbn [length]. lia.
Qed.

(** X10. No sequence of requests changes or removes a stored roll or a
    journal entry: the earlier rolls and writes are a prefix of the later
    ones, and each request adds at most one roll. *)
Theorem history_is_append_only (rs : list request) (w : World) :
  rolls (db w) `prefix_of` rolls (db (run rs w)) /\
  journal (db w) `prefix_of` journal (db (run rs w)) /\
  (length (rolls (db (run rs w))) <= length (rolls (db w)) + length rs)%nat.
Proof.
  revert w. induction rs as [|r rs IH]; intros w.
  - cbn. repeat split; try reflexivity. lia.
  - change (run (r :: rs) w) with (run rs (step r w)).
    destruct (IH (step r w)) as (Hr & Hj & Hn).
    destruct (db_change_appends _ _ (step_db_change r w)) as (Hr' & Hj' & Hn').
    repeat split; try (etransitivity; eassumption). cbn [length]. lia.
Qed.

Lemma session_persists_step w r sid s :
  ledger_kept (db w) ->
  sessions (db w) !! sid = Some s ->
  exists s',
    sessions (db (step r w)) !! sid = Some s' /\
    session_id s' = session_id s /\ created_at s' = created_at s /\
    account_credits s <= account_credits s' /\
    (is_active s' = true -> is_active s = true).
Proof.
  intros [Hkey _ _ _ Hrows _] Hl.
  destruct (step_db_change r w)
    as [d1 [|uuid now Hfresh|k x roll Hk Ha Hc Hroll Hf|k x Hk Ha Hf]
       |k x Hk Ha Hc Hd Hmax]; cbn [sessions].
  - exists s. repeat split; [assumption|lia|auto].
  - exists s. rewrite lookup_insert_ne by congruence.
    repeat split; [assumption|lia|auto].
  - rewrite (Hkey _ _ Hk). destruct (decide (k = sid)) as [->|Hne].
    + rewrite Hk in Hl. injection Hl as ->.
      eexists. rewrite lookup_insert_eq. split; [reflexivity|].
      cbn. repeat split; [lia|auto].
    + exists s. rewrite lookup_insert_ne by congruence.
      repeat split; [assumption|lia|auto].
  - rewrite (Hkey _ _ Hk). destruct (decide (k = sid)) as [->|Hne].
    + rewrite Hk in Hl. injection Hl as ->.
      eexists. rewrite lookup_insert_eq. split; [reflexivity|].
      cbn. destruct (Hrows _ _ Hk) as (? & ? & _). repeat split; [lia|discriminate].
    + exists s. rewrite lookup_insert_ne by congruence.
      repeat split; [assumption|lia|auto].
  - rewrite (Hkey _ _ Hk). destruct (decide (k = sid)) as [->|Hne].
    + rewrite Hk in Hl. injection Hl as ->.
      eexists. rewrite lookup_insert_eq. split; [reflexivity|].
      cbn. repeat split; [lia|auto].
    + exists s. rewrite lookup_insert_ne by congruence.
      repeat split; [assumption|lia|auto].
Qed.

(** X11. A stored session is never deleted: after any sequence of requests
    its row is still there with the same identifier and creation time, its
    account credits have not decreased, and it has not been reopened. *)
Theorem sessions_are_never_deleted w sid s rs :
  reachable w -> sessions (db w) !! sid = Some s ->
  exists s',
    sessions (db (run rs w)) !! sid = Some s' /\
    session_id s' = session_id s /\ created_at s' = created_at s /\
    account_credits s <= account_credits s' /\
    (is_active s' = true -> is_active s = true).
Proof.
  revert w s. induction rs as [|r rs IH]; intros w s Hw Hl.
  - exists s. repeat split; [assumption|lia|auto].
  - cbn [run foldl].
    destruct (session_persists_step w r sid s) as (s1 & Hl1 & Hid1 & Hat1 & Hacc1 & Hact1);
      [now apply reachable_ledger_kept | assumption|].
    destruct (IH (step r w) s1) as (s' & Hl' & Hid' & Hat' & Hacc' & Hact');
      [now constructor | assumption|].
    exists s'. repeat split; [assumption|congruence|congruence|lia|auto].
Qed.

Lemma sessions_are_never_deleted_witness :
  reachable fresh_world /\
  sessions (db fresh_world) !! 7%N = Some fresh_session /\
  exists s',
    sessions (db (run [PlayRoll 7 101; CashOut 7; CreateSession 7 103] fresh_world))
      !! 7%N = Some s' /\
    session_id s' = session_id fresh_session /\
    created_at s' = created_at fresh_session /\
    account_credits fresh_session <= account_credits s' /\
    (is_active s' = true -> is_active fresh_session = true).
Proof.
  assert (Hr : reachable fresh_world) by (apply reachable_run, reachable_initial).
  split; [exact Hr|]. split; [reflexivity|].
  apply (sessions_are_never_deleted fresh_world 7 fresh_session _ Hr). reflexivity.
Defined.

(** X12. In a reachable state a request changes no session row but the
    one it names. *)
Theorem requests_touch_one_session w r other :
  reachable w -> other <> target r ->
  sessions (db (step r w)) !! other = sessions (db w) !! other.
Proof.
  intros Hw Hne. destruct (reachable_ledger_kept w Hw) as [Hkey _ _ _ _ _].
  unfold step. destruct r as [uuid now|sid now|sid|sid]; cbn [dispatch target] in *.
  - unfold create_session, bind, with_db, GameSession_create.
    destruct (sessions (db w) !! uuid) eqn:E; cbn; [reflexivity|].
    now rewrite lookup_insert_ne by congruence.
  - destruct (sessions (db w) !! sid) as [s|] eqn:Hl.
    2:{ now rewrite roll_slots_missing by now left. }
    destruct (is_active s) eqn:Ha.
    2:{ now rewrite roll_slots_missing by (right; eauto). }
    destruct (Z.le_gt_cases 1 (credits s)) as [Hc|Hc].
    2:{ now erewrite roll_slots_broke by (eassumption || lia). }
    destruct (roll_slots_cases w sid now s Hl Ha Hc)
      as [(_ & ->)|[(_ & _ & g' & u & b & -> & _)
                   |(roll & display & g' & u & b & -> & _)]];
      cbn [snd db sessions]; [reflexivity| |]; rewrite (Hkey _ _ Hl);
      now rewrite lookup_insert_ne by congruence.
  - destruct (sessions (db w) !! sid) as [s|] eqn:Hl.
    2:{ now rewrite cash_out_missing by now left. }
    destruct (is_active s) eqn:Ha.
    2:{ now rewrite cash_out_missing by (right; eauto). }
    destruct (fits_column (account_credits s + credits s)) eqn:Hf.
    + rewrite (cash_out_done w sid s Hl Ha Hf). cbn [snd db sessions].
      rewrite (Hkey _ _ Hl). now rewrite lookup_insert_ne by congruence.
    + now rewrite (cash_out_overflow w sid s Hl Ha Hf).
  - now rewrite get_session_status_pure.
Qed.


Lemma requests_touch_one_session_witness :
  reachable two_sessions_world /\ 8%N <> target (PlayRoll 7 105) /\
  sessions (db two_sessions_world) !! 8%N = Some other_session /\
  sessions (db two_sessions_world) !! 7%N <>
  sessions (db (step (PlayRoll 7 105) two_sessions_world)) !! 7%N /\
  sessions (db (step (PlayRoll 7 105) two_sessions_world)) !! 8%N
  = sessions (db two_sessions_world) !! 8%N.
Proof.
  assert (Hr : reachable two_sessions_world) by (apply reachable_run, reachable_initial).
  split; [exact Hr|]. split; [discriminate|]. split; [reflexivity|].
  split; [vm_compute; discriminate|].
  apply (requests_touch_one_session two_sessions_world (PlayRoll 7 105) 8 Hr).
  discriminate.
Defined.

(** ** Draws per request *)

(** X13. Only [roll_slots] draws: the other three handlers leave the
    generator as it is.  A play consumes no draw at all, or three draws of
    [random.choice] with at most one of [random.random], or (when it
    re-rolls) six or seven draws of [random.choice] and one of
    [random.random]; what is still to be drawn is never altered. *)
Theorem requests_consume_bounded_draws (r : request) (w : World) :
  match r with
  | PlayRoll _ _ =>
      exists u b,
        drawn (rng w) (rng (step r w)) u b /\
        In (u, b) [(0, 0); (0, 3); (1, 3); (1, 6); (1, 7)]%nat
  | _ => rng (step r w) = rng w
  end.
Proof.
  unfold step. destruct r as [uuid now|sid now|sid|sid]; cbn [dispatch].
  - unfold create_session, bind, with_db, GameSession_create.
    destruct (sessions (db w) !! uuid); reflexivity.
  - destruct (sessions (db w) !! sid) as [s|] eqn:Hl.
    2:{ rewrite roll_slots_missing by now left.
        exists 0%nat, 0%nat. split; [apply drawn_refl|now left]. }
    destruct (is_active s) eqn:Ha.
    2:{ rewrite roll_slots_missing by (right; eauto).
        exists 0%nat, 0%nat. split; [apply drawn_refl|now left]. }
    destruct (Z.le_gt_cases 1 (credits s)) as [Hc|Hc].
    2:{ erewrite roll_slots_broke by (eassumption || lia).
        exists 0%nat, 0%nat. split; [apply drawn_refl|now left]. }
    destruct (roll_slots_cases w sid now s Hl Ha Hc)
      as [(_ & ->)|[(_ & _ & g' & u & b & -> & Hd & Hin)
                   |(roll & display & g' & u & b & -> & _ & _ & _ & _ & Hd & Hin)]];
      cbn [snd rng].
    + exists 0%nat, 0%nat. split; [apply drawn_refl|now left].
    + exists u, b. split; [exact Hd|now right].
    + exists u, b. split; [exact Hd|now right].
  - destruct (sessions (db w) !! sid) as [s|] eqn:Hl.
    2:{ now rewrite cash_out_missing by now left. }
    destruct (is_active s) eqn:Ha.
    2:{ now rewrite cash_out_missing by (right; eauto). }
    destruct (fits_column (account_credits s + credits s)) eqn:Hf.
    + now rewrite (cash_out_done w sid s Hl Ha Hf).
    + now rewrite (cash_out_overflow w sid s Hl Ha Hf).
  - now rewrite get_session_status_pure.
Qed.

(** ** Creating a session and reading it back *)

(** X14. [create_session] with an unused identifier answers with 10
    credits and no account credits; the status lookup on it then reports an
    active session that can play; no other row, no roll and no draw is
    touched. *)
Theorem create_session_then_status w uuid now :
  sessions (db w) !! uuid = None ->
  exists w1,
    create_session uuid now w = (Ok (CreateSessionResponse uuid 10 0), w1) /\
    get_session_status uuid w1
    = (Ok (SessionStatusResponse uuid 10 0 true true), w1) /\
    (forall other, other <> uuid ->
                   sessions (db w1) !! other = sessions (db w) !! other) /\
    rolls (db w1) = rolls (db w) /\ rng w1 = rng w.
Proof.
  intros Hfresh. eexists. split.
  - unfold create_session, bind, with_db, GameSession_create. rewrite Hfresh.
    reflexivity.
  - split.
    + unfold get_session_status, try_except, bind, with_db, get_object_or_404, ret.
      cbn [db sessions]. rewrite lookup_insert_eq. reflexivity.
    + cbn [db sessions rolls rng]. split; [|split; reflexivity].
      intros other Hne. now rewrite lookup_insert_ne by congruence.
Qed.

Lemma create_session_then_status_witness :
  sessions (db fresh_world) !! 8%N = None /\
  exists w1,
    create_session 8 104 fresh_world = (Ok (CreateSessionResponse 8 10 0), w1) /\
    get_session_status 8 w1 = (Ok (SessionStatusResponse 8 10 0 true true), w1) /\
    (forall other, other <> 8%N ->
                   sessions (db w1) !! other = sessions (db fresh_world) !! other) /\
    rolls (db w1) = rolls (db fresh_world) /\ rng w1 = rng fresh_world.
Proof.
  split; [reflexivity|].
  apply (create_session_then_status fresh_world 8 104). reflexivity.
Defined.

(** ** Answers and state changes *)

(** X15. [roll_slots] on a well-formed identifier never lets an exception
    out, and the stored row decides its answer: no row or a closed one, the
    not-found error; an active row without credits, "Not enough credits";
    otherwise a roll whose [total_credits] is the old balance less one plus
    [credits_won], or the overflow error, and that one only when the row does
    not fit its columns or the balance is within 39 of the column's bound.
    Not-found and "Not enough credits" leave the state as it was. *)
Theorem roll_slots_outcome (w : World) (sid : N) (now : Z) :
  match sessions (db w) !! sid with
  | Some s =>
      if is_active s then
        if 1 <=? credits s then
          (exists shown glyphs winning won rerolled,
             fst (roll_slots sid now w)
             = Ok (RollResponse shown glyphs winning won
                     (credits s - 1 + won) rerolled))
          \/ (fst (roll_slots sid now w) = Ok OverflowFailure /\
              (row_fits s = false \/ INTEGER_MAX < credits s + 39))
        else roll_slots sid now w = (Ok InsufficientCredits, w)
      else roll_slots sid now w = (Ok SessionNotFoundOrInactive, w)
  | None => roll_slots sid now w = (Ok SessionNotFoundOrInactive, w)
  end.
Proof.
  destruct (sessions (db w) !! sid) as [s|] eqn:Hl.
  2:{ apply roll_slots_missing. now left. }
  destruct (is_active s) eqn:Ha.
  2:{ apply roll_slots_missing. right. eauto. }
  destruct (Z.leb_spec 1 (credits s)) as [Hc|Hc].
  2:{ eapply roll_slots_broke; eassumption. }
  destruct (roll_slots_cases w sid now s Hl Ha Hc)
    as [(Hd & ->)|[(_ & Hover & g' & u & b & -> & _)
                  |(roll & display & g' & u & b & -> & (_ & _ & Hafter & _) & _)]];
    cbn [fst].
  - right. split; [reflexivity|]. left.
    destruct (row_fits s) eqn:Hf; [|reflexivity].
    now rewrite (deducted_fits s Hf Hc) in Hd.
  - right. split; [reflexivity|]. now right.
  - left. rewrite Hafter. eauto 10.
Qed.





(** ** The thresholds of the cheat policy *)

Lemma ltb_thresholds (r : float) :
  PrimFloat.ltb r 0.3%float = true -> PrimFloat.ltb r 0.6%float = true.
Proof.
  rewrite !FloatAxioms.ltb_spec.
  change (FloatOps.Prim2SF 0.3%float)
    with (SpecFloat.S754_finite false 5404319552844595 (-54)).
  change (FloatOps.Prim2SF 0.6%float)
    with (SpecFloat.S754_finite false 5404319552844595 (-53)).
  destruct (FloatOps.Prim2SF r) as [sign|sign| |sign m e];
    unfold SpecFloat.SFltb, SpecFloat.SFcompare;
    try destruct sign; try reflexivity; try discriminate.
  destruct (e ?= -54) eqn:E3; try discriminate; intros _.
  - apply Z.compare_eq in E3. subst e. reflexivity.
  - assert (H3 : e < -54) by exact E3.
    assert (E6 : e < -53) by lia.
    unfold Z.lt in E6. now rewrite E6.
Qed.

(** X18. For one and the same draw the cheat policy is monotone in the
    balance it weighs: a win that [should_server_cheat] suppresses at some
    future balance is suppressed at every higher one. *)
Theorem should_server_cheat_monotone c p c' p' (g : Random) :
  c + p <= c' + p' ->
  fst (should_server_cheat c p g) = Ok true ->
  fst (should_server_cheat c' p' g) = Ok true.
Proof.
  intros Hle. unfold should_server_cheat.
  destruct (Z.ltb_spec (c + p) 40); [discriminate|].
  destruct (Z.ltb_spec (c' + p') 40); [lia|].
  destruct (Z.leb_spec 40 (c + p)); [|lia].
  destruct (Z.leb_spec 40 (c' + p')); [|lia].
  destruct (Z.leb_spec (c + p) 60), (Z.leb_spec (c' + p') 60);
    cbn [andb]; unfold bind, random_random, ret; cbn [fst];
    try lia; try (intros Hs; exact Hs).
  intros [= Hs]. f_equal. now apply ltb_thresholds.
Qed.

Lemma should_server_cheat_monotone_witness :
  35 + 10 <= 55 + 10 /\
  fst (should_server_cheat 35 10 (lucky_rng 0.2%float)) = Ok true /\
  fst (should_server_cheat 55 10 (lucky_rng 0.2%float)) = Ok true.
Proof.
  split; [lia|]. split; [reflexivity|].
  apply (should_server_cheat_monotone 35 10 55 10 (lucky_rng 0.2%float));
    [lia|reflexivity].
Defined.
